(** * mail-downloader: a shallow embedding of the fetch pipeline, the mail
    parser, the metadata index and the export handlers, with the properties
    of the specification stated and settled against the code.

    Source files embedded here: [mail.go] (mail, attachment, jsonMail,
    mailList, newMailList, addMail, save, fetchMeta, fetchBody, generatePdf,
    getDirectoryName, toJson), the imap file (fixUtf, fetchMessages), the
    handlers file (AttachmentHandler, PDFHandler, TextHandler, mimeType,
    sanitizeSubject) and [main.go] (producer goroutine, consumer loop,
    handler dispatch). *)

From Stdlib Require Import ZArith Ascii String.
From stdpp Require Import base strings list gmap pretty.

Local Open Scope string_scope.
Local Open Scope Z_scope.
Local Open Scope list_scope.

(** ** Go values

    A Go [string] and a Go [[]byte] are both byte sequences: a [string] here,
    one [ascii] per byte.  A [rune] is an [int32], here a [Z]. *)

Module Go.

Definition bytes := string.
Definition rune := Z.

Definition byteZ (c : ascii) : Z := Z.of_N (N_of_ascii c).
Definition ofZ (z : Z) : ascii := ascii_of_N (Z.to_N z).

(** [len(s)] *)
Definition len (s : string) : nat := String.length s.

(** [s[i:]] for [0 <= i <= len(s)] *)
Fixpoint sliceFrom (n : nat) (s : string) : string :=
  match n, s with
  | O, _ => s
  | S k, String _ t => sliceFrom k t
  | S _, EmptyString => EmptyString
  end.

(** [s[:i]] for [0 <= i <= len(s)] *)
Fixpoint sliceTo (n : nat) (s : string) : string :=
  match n, s with
  | S k, String c t => String c (sliceTo k t)
  | _, _ => EmptyString
  end.

(** *** Errors

    An [error] is an interface value; the program compares errors with the
    sentinels [io.EOF] and [io.ErrUnexpectedEOF] by identity and reads their
    message with [Error()], here [message].  An [*os.PathError] is known by
    the [errno] it wraps; any other error by its message. *)

Inductive error : Type :=
  | io_EOF
  | io_ErrUnexpectedEOF
  | PathError (errno : string)
  | errorString (msg : string).

(** [syscall.ENAMETOOLONG], by its text. *)
Definition ENAMETOOLONG : string := "file name too long".

Definition message (e : error) : string :=
  match e with
  | io_EOF => "EOF"
  | io_ErrUnexpectedEOF => "unexpected EOF"
  | PathError errno => errno
  | errorString msg => msg
  end.

#[global] Instance error_eq_dec : EqDecision error.
Proof. solve_decision. Defined.

(** [fmt.Errorf("<prefix>: %w", err)] *)
Definition Errorf (prefix : string) (err : error) : error :=
  errorString (prefix +:+ ": " +:+ message err).

(** *** unicode/utf8 *)

Definition RuneError : rune := 0xFFFD.
Definition RuneSelf : Z := 0x80.

Definition inRange (lo hi b : Z) : bool := (lo <=? b) && (b <=? hi).

(** The table [first] of package utf8 together with [acceptRanges]: for a
    leading byte, the length of the sequence and the range accepted for the
    second byte. *)
Definition acceptRange (b0 : Z) : option (nat * Z * Z) :=
  if inRange 0xC2 0xDF b0 then Some (2%nat, 0x80, 0xBF)
  else if b0 =? 0xE0 then Some (3%nat, 0xA0, 0xBF)
  else if inRange 0xE1 0xEC b0 then Some (3%nat, 0x80, 0xBF)
  else if b0 =? 0xED then Some (3%nat, 0x80, 0x9F)
  else if inRange 0xEE 0xEF b0 then Some (3%nat, 0x80, 0xBF)
  else if b0 =? 0xF0 then Some (4%nat, 0x90, 0xBF)
  else if inRange 0xF1 0xF3 b0 then Some (4%nat, 0x80, 0xBF)
  else if b0 =? 0xF4 then Some (4%nat, 0x80, 0x8F)
  else None.

Definition isCont (b : Z) : bool := inRange 0x80 0xBF b.

(** [utf8.DecodeRuneInString]: the first rune of [s] and its width in
    bytes; [(RuneError, 0)] on the empty string and [(RuneError, 1)] on an
    invalid encoding. *)
Definition DecodeRuneInString (s : string) : rune * nat :=
  match s with
  | EmptyString => (RuneError, 0%nat)
  | String c0 t0 =>
    let b0 := byteZ c0 in
    if b0 <? RuneSelf then (b0, 1%nat)
    else
      match acceptRange b0 with
      | None => (RuneError, 1%nat)
      | Some (sz, lo, hi) =>
        match t0 with
        | EmptyString => (RuneError, 1%nat)
        | String c1 t1 =>
          let b1 := byteZ c1 in
          if negb (inRange lo hi b1) then (RuneError, 1%nat)
          else if (sz =? 2)%nat then
            (Z.lor (Z.shiftl (Z.land b0 0x1F) 6) (Z.land b1 0x3F), 2%nat)
          else
            match t1 with
            | EmptyString => (RuneError, 1%nat)
            | String c2 t2 =>
              let b2 := byteZ c2 in
              if negb (isCont b2) then (RuneError, 1%nat)
              else if (sz =? 3)%nat then
                (Z.lor (Z.shiftl (Z.land b0 0x0F) 12)
                   (Z.lor (Z.shiftl (Z.land b1 0x3F) 6) (Z.land b2 0x3F)),
                 3%nat)
              else
                match t2 with
                | EmptyString => (RuneError, 1%nat)
                | String c3 _ =>
                  let b3 := byteZ c3 in
                  if negb (isCont b3) then (RuneError, 1%nat)
                  else
                    (Z.lor (Z.shiftl (Z.land b0 0x07) 18)
                       (Z.lor (Z.shiftl (Z.land b1 0x3F) 12)
                          (Z.lor (Z.shiftl (Z.land b2 0x3F) 6)
                             (Z.land b3 0x3F))),
                     4%nat)
                end
            end
        end
      end
  end.

(** [utf8.AppendRune]: the UTF-8 encoding of [r]; a negative rune, a
    surrogate or a rune above U+10FFFF encodes as U+FFFD. *)
Definition EncodeRune (r : rune) : string :=
  let cont (x : Z) := ofZ (Z.lor 0x80 (Z.land x 0x3F)) in
  let three (x : Z) :=
    String (ofZ (Z.lor 0xE0 (Z.shiftr x 12)))
      (String (cont (Z.shiftr x 6)) (String (cont x) EmptyString)) in
  if inRange 0 0x7F r then String (ofZ r) EmptyString
  else if inRange 0x80 0x7FF r then
    String (ofZ (Z.lor 0xC0 (Z.shiftr r 6))) (String (cont r) EmptyString)
  else if (r <? 0) || (0x10FFFF <? r) || inRange 0xD800 0xDFFF r then
    three RuneError
  else if r <=? 0xFFFF then three r
  else
    String (ofZ (Z.lor 0xF0 (Z.shiftr r 18)))
      (String (cont (Z.shiftr r 12))
         (String (cont (Z.shiftr r 6)) (String (cont r) EmptyString))).

(** [utf8.RuneStart] *)
Definition RuneStart (b : Z) : bool := negb (Z.land b 0xC0 =? 0x80).

(** [s[i]] *)
Definition at_ (s : string) (i : nat) : Z :=
  match String.get i s with Some c => byteZ c | None => 0 end.

(** [utf8.DecodeLastRuneInString]: scan back at most [UTFMax] bytes for
    the start of the last rune, decode from there and require that the
    rune ends where the string ends. *)
Definition DecodeLastRuneInString (s : string) : rune * nat :=
  let end_ := len s in
  match end_ with
  | O => (RuneError, 0%nat)
  | S start0 =>
    let r := at_ s start0 in
    if r <? RuneSelf then (r, 1%nat)
    else
      let lim := (end_ - 4)%nat in
      (* for start--; start >= lim; start-- { if RuneStart(s[start]) { break } } *)
      let fix scan (n : nat) (start : Z) : Z :=
        match n with
        | O => start
        | S n' =>
          if start <? Z.of_nat lim then start
          else if RuneStart (at_ s (Z.to_nat start)) then start
          else scan n' (start - 1)
        end in
      let start := scan 4%nat (Z.of_nat start0 - 1) in
      let start := if start <? 0 then 0 else start in
      let '(r, size) := DecodeRuneInString (sliceFrom (Z.to_nat start) s) in
      if (Z.to_nat start + size =? end_)%nat then (r, size)
      else (RuneError, 1%nat)
  end.

(** [unicode.IsSpace] *)
Definition IsSpace (r : rune) : bool :=
  inRange 0x09 0x0D r || (r =? 0x20) || (r =? 0x85) || (r =? 0xA0)
  || (r =? 0x1680) || inRange 0x2000 0x200A r || (r =? 0x2028)
  || (r =? 0x2029) || (r =? 0x202F) || (r =? 0x205F) || (r =? 0x3000).

(** *** strings *)

(** [strings.Map(mapping, s)]: every rune of [s] (an invalid byte reads as
    [RuneError], one byte wide) is replaced by its image, and dropped when
    the image is negative.  [skip] counts the bytes of the current rune
    still to step over, as [for i, c := range s] does. *)
Fixpoint Map_from (mapping : rune -> rune) (skip : nat) (s : string) : string :=
  match s with
  | EmptyString => EmptyString
  | String _ t =>
    match skip with
    | S k => Map_from mapping k t
    | O =>
      let '(c, width) := DecodeRuneInString s in
      let r := mapping c in
      (if r <? 0 then EmptyString else EncodeRune r)
        +:+ Map_from mapping (width - 1) t
    end
  end.

Definition Map (mapping : rune -> rune) (s : string) : string :=
  Map_from mapping 0 s.

(** [strings.TrimLeftFunc(s, unicode.IsSpace)] *)
Fixpoint TrimLeft_from (skip : nat) (s : string) : string :=
  match s with
  | EmptyString => EmptyString
  | String _ t =>
    match skip with
    | S k => TrimLeft_from k t
    | O =>
      let '(c, width) := DecodeRuneInString s in
      if IsSpace c then TrimLeft_from (width - 1) t else s
    end
  end.

(** [strings.TrimRightFunc(s, unicode.IsSpace)]: [s] up to the end of its
    last rune that is no white space.  The loop of [lastIndexFunc] runs at
    most [len(s)] times. *)
Fixpoint TrimRight_loop (n : nat) (s : string) : string :=
  match n with
  | O => s
  | S n' =>
    match s with
    | EmptyString => EmptyString
    | _ =>
      let '(r, size) := DecodeLastRuneInString s in
      if IsSpace r then TrimRight_loop n' (sliceTo (len s - size) s) else s
    end
  end.

(** [strings.TrimSpace]: leading and trailing white space, as defined by
    Unicode, removed. *)
Definition TrimSpace (s : string) : string :=
  let l := TrimLeft_from 0 s in TrimRight_loop (len l) l.

(** [strings.Split(s, sep)[0]] for a one-byte separator: [s] up to the
    first [sep], all of [s] when there is none. *)
Fixpoint Split_first (sep : ascii) (s : string) : string :=
  match s with
  | EmptyString => EmptyString
  | String c t => if decide (c = sep) then EmptyString else String c (Split_first sep t)
  end.

(** Replacing every occurrence of one byte by another: what
    [strings.ReplaceAll(s, old, new)] does for one-byte [old] and [new]. *)
Fixpoint ReplaceByte (old new : ascii) (s : string) : string :=
  match s with
  | EmptyString => EmptyString
  | String c t => String (if decide (c = old) then new else c) (ReplaceByte old new t)
  end.

(** Does the byte [c] occur in [s]? *)
Fixpoint Contains (c : ascii) (s : string) : bool :=
  match s with
  | EmptyString => false
  | String d t => bool_decide (d = c) || Contains c t
  end.

Definition newline : string := String (ascii_of_nat 10) EmptyString.

(** [fmt.Sprintf("%d", n)] for an unsigned [n] *)
Definition itoa (n : N) : string := pretty n.

(** [appendInt] of package time: [x] in decimal, zero-padded to [width]
    digits, with a leading minus sign when negative. *)
Definition appendInt (x : Z) (width : nat) : string :=
  let digits := pretty (Z.abs_N x) in
  let padded := string_of_list_ascii (replicate (width - len digits) "0"%char) +:+ digits in
  if x <? 0 then "-" +:+ padded else padded.

End Go.

Import Go.

(** ** The world outside the program

    The file system as the program sees it: the files by path, the
    directories created, and the log.  Whether a system call succeeds is not
    decided by the program: [faults] lists the outcomes of the calls still to
    come, one per call, and a call finding the list empty succeeds. *)

Inductive fault : Type :=
  | Succeeds
  | Fails (e : error) (partial : option bytes).

Record World : Type := mkWorld {
  files : gmap string bytes;
  dirs : gset string;
  faults : list fault;
  logged : list string
}.

Definition set_files (f : gmap string bytes → gmap string bytes) (w : World) : World :=
  mkWorld (f (files w)) (dirs w) (faults w) (logged w).

Definition set_dirs (f : gset string → gset string) (w : World) : World :=
  mkWorld (files w) (f (dirs w)) (faults w) (logged w).

(** The outcome of the next system call. *)
Definition next_fault (w : World) : fault * World :=
  match faults w with
  | [] => (Succeeds, w)
  | f :: fs => (f, mkWorld (files w) (dirs w) fs (logged w))
  end.

(** [log.Println], [log.Printf] *)
Definition log_Println (line : string) (w : World) : World :=
  mkWorld (files w) (dirs w) (faults w) (logged w ++ [line]).

Module os.

(** [os.WriteFile(name, data, perm)]: on success the file holds exactly
    [data]; a failed call leaves the file as it was, or holding whatever
    part had been written. *)
Definition WriteFile (name : string) (data : bytes) (w : World) : option error * World :=
  match next_fault w with
  | (Succeeds, w') => (None, set_files (insert name data) w')
  | (Fails e None, w') => (Some e, w')
  | (Fails e (Some part), w') => (Some e, set_files (insert name part) w')
  end.

(** [os.MkdirAll(path, perm)] *)
Definition MkdirAll (path : string) (w : World) : option error * World :=
  match next_fault w with
  | (Succeeds, w') => (None, set_dirs (union {[path]}) w')
  | (Fails e _, w') => (Some e, w')
  end.

(** [os.Rename(oldpath, newpath)]: in one step [newpath] takes the content
    of [oldpath], which ceases to exist; a failed call changes nothing. *)
Definition Rename (oldpath newpath : string) (w : World) : option error * World :=
  match next_fault w with
  | (Succeeds, w') =>
    match files w' !! oldpath with
    | Some data => (None, set_files (λ fs, <[newpath := data]> (delete oldpath fs)) w')
    | None => (Some (errorString "no such file or directory"), w')
    end
  | (Fails e _, w') => (Some e, w')
  end.

(** [os.Remove(name)] *)
Definition Remove (name : string) (w : World) : option error * World :=
  match next_fault w with
  | (Succeeds, w') => (None, set_files (delete name) w')
  | (Fails e _, w') => (Some e, w')
  end.

End os.

(** What a handler call comes to: it returns, or it panics. *)
Inductive outcome (A : Type) : Type :=
  | Returned (a : A) (w : World)
  | Panicked (w : World).
Arguments Returned {A} a w.
Arguments Panicked {A} w.

(** ** Data model (mail.go) *)

(** [imap.Address], the fields the program reads. *)
Record Address : Type := mkAddress {
  PersonalName : string;
  MailboxName : string;
  HostName : string
}.

(** [time.Time], as the calendar date the program formats. *)
Record Time : Type := mkTime {
  Year : Z;
  Month : Z;
  Day : Z
}.

Record attachment : Type := mkAttachment {
  Filename : string;
  att_Body : bytes;
  Mimetype : string
}.

Record mail : Type := mkMail {
  Uid : N;
  MessageID : string;
  Subject : string;
  From : list Address;
  Date : Time;
  Body : list bytes;
  Attachments : list attachment;
  MimeType : string;
  MultipartMimeType : list string;
  AttachmentMimeType : list string;
  Error : option error
}.

(** [new(mail)] *)
Definition new_mail : mail :=
  mkMail 0%N "" "" [] (mkTime 1 1 1) [] [] "" [] [] None.

Definition set_MimeType (v : string) (m : mail) : mail :=
  mkMail (Uid m) (MessageID m) (Subject m) (From m) (Date m) (Body m)
    (Attachments m) v (MultipartMimeType m) (AttachmentMimeType m) (Error m).

Definition set_Body (v : list bytes) (m : mail) : mail :=
  mkMail (Uid m) (MessageID m) (Subject m) (From m) (Date m) v
    (Attachments m) (MimeType m) (MultipartMimeType m) (AttachmentMimeType m) (Error m).

Definition set_Attachments (v : list attachment) (m : mail) : mail :=
  mkMail (Uid m) (MessageID m) (Subject m) (From m) (Date m) (Body m)
    v (MimeType m) (MultipartMimeType m) (AttachmentMimeType m) (Error m).

Definition set_MultipartMimeType (v : list string) (m : mail) : mail :=
  mkMail (Uid m) (MessageID m) (Subject m) (From m) (Date m) (Body m)
    (Attachments m) (MimeType m) v (AttachmentMimeType m) (Error m).

Definition set_AttachmentMimeType (v : list string) (m : mail) : mail :=
  mkMail (Uid m) (MessageID m) (Subject m) (From m) (Date m) (Body m)
    (Attachments m) (MimeType m) (MultipartMimeType m) v (Error m).

Definition set_Error (v : option error) (m : mail) : mail :=
  mkMail (Uid m) (MessageID m) (Subject m) (From m) (Date m) (Body m)
    (Attachments m) (MimeType m) (MultipartMimeType m) (AttachmentMimeType m) v.

(** [jsonMail] is used for JSON serialization. *)
Record jsonMail : Type := mkJsonMail {
  jm_Uid : N;
  jm_MessageID : string;
  jm_Subject : string;
  jm_From : list string;
  jm_Date : Time;
  jm_Attachments : list string;
  jm_MimeType : string;
  jm_MultipartMimeType : list string;
  jm_AttachmentMimeType : list string
}.

(** [mailList] represents the metadata for a user's email collection.  The
    mutex [mu] guards [addMail]; the one consumer loop of [main] is its only
    caller. *)
Record mailList : Type := mkMailList {
  Email : string;
  List : list jsonMail;
  Vendor : string;
  Server : string;
  path : string
}.

Definition set_List (v : list jsonMail) (ml : mailList) : mailList :=
  mkMailList (Email ml) v (Vendor ml) (Server ml) (path ml).

(** ** Raw messages (go-imap, go-message)

    What the message source delivers for one identifier.  The body section
    is kept as the mail reader that [mail.CreateReader] makes of it. *)

(** [io.ReadAll(part.Body)] *)
Inductive readAll : Type :=
  | ReadOk (body : bytes)
  | ReadErr (e : error).

(** [part.Header]: go-message's [NextPart] yields an [*InlineHeader] or an
    [*AttachmentHeader]; the latter carries what [header.Filename()]
    returns. *)
Inductive PartHeader : Type :=
  | InlineHeader
  | AttachmentHeader (filename : error + string).

Record Part : Type := mkPart {
  Header : PartHeader;
  part_Body : readAll
}.

(** One call of [reader.NextPart()]; once the list of a reader is used up
    the call returns [io.EOF]. *)
Inductive nextPart : Type :=
  | NextOk (p : Part)
  | NextErr (e : error).

(** [*mail.Reader]: the result of [reader.Header.ContentType()], the parts
    in the order [NextPart] yields them, and what [Close] returns once the
    program is done with the reader. *)
Record Reader : Type := mkReader {
  ContentType : error + string;
  parts : list nextPart;
  Close : option error
}.

(** [mail.CreateReader(reader)] *)
Inductive createReader : Type :=
  | CreateOk (mailReader : Reader)
  | CreateErr (err : error) (mailReader : option Reader).

Record BodyStructure : Type := mkBodyStructure {
  MIMEType : string;
  MIMESubType : string
}.

Record Envelope : Type := mkEnvelope {
  env_Date : Time;
  env_Subject : string;
  env_From : list Address;
  env_MessageId : string
}.

(** [*imap.Message].  The envelope is among the items [fetchMessages] asks
    for and is taken to be there.  [GetBody] is [None] when
    [message.GetBody(section)] is nil. *)
Record Message : Type := mkMessage {
  msg_Uid : N;
  msg_Envelope : Envelope;
  msg_BodyStructure : option BodyStructure;
  GetBody : option createReader
}.

(** [mimetype.MIME]: the sniffed type label, the extension that goes with
    it, and [Is]. *)
Record MIME : Type := mkMIME {
  MIME_String : string;
  Extension : string;
  Is : string → bool
}.

(** [Config], the options the handlers read. *)
Record Config : Type := mkConfig {
  Attachments_Mimetypes : list string;
  Mails_Subjects : list string
}.

(** ** Package counter *)

Module counter.

(** Modelled from the spec: package [counter] of this repository
    ([CreateCounter], [Next], [Current]) is not among the source files.  The
    spec has the ordinal of a synthesized file name "per-message and
    monotonically increasing starting at the first unnamed attachment
    encountered"; a counter is the number it stands at. *)
Definition counter := N.

(** Modelled from the spec: [counter.CreateCounter()] is missing; a new
    counter stands at zero, which [generatePdf] relies on when it takes
    [Current() == 0] to mean that [Next] was never called. *)
Definition CreateCounter : counter := 0%N.

(** Modelled from the spec: [counter.Next()] is missing; it steps the
    counter by one and returns the new value, so that the values returned
    are "monotonically increasing". *)
Definition Next (c : counter) : N * counter := ((c + 1)%N, (c + 1)%N).

(** Modelled from the spec: [counter.Current()] is missing; it returns
    the value the counter stands at. *)
Definition Current (c : counter) : N := c.

End counter.

(** ** The program *)

(** The collaborators of the program, none of them in its source:
    [mimetype.Detect], [json.MarshalIndent] on a [mailList], [Find] of
    package search (the word list searched and the text searched in), the
    PDF generator and [time.Time.String], for the log.  Of the PDF
    generator, [NewPDFGenerator] is the error of [wkhtmltopdf.NewPDFGenerator],
    if it returns one, and [wkhtmltopdf] is the run on the pages added
    ([AddPage] for every page, [Create], [Bytes]): the error of [Create], or
    what [Bytes] returns, [None] for a nil slice. *)
Class Collaborators : Type := {
  Detect : bytes → MIME;
  MarshalIndent : mailList → error + bytes;
  Find : list string → string → bool;
  NewPDFGenerator : option error;
  wkhtmltopdf : list bytes → error + option bytes;
  Time_String : Time → string
}.

Section MailDownloader.

Context {collab : Collaborators}.

(** *** mail.go *)

(** [encoding/json] writes a string with every byte that is not part of a
    valid UTF-8 sequence as U+FFFD, which is what comes back when the text
    is parsed again. *)
Definition jsonString (s : string) : string := Map (λ r, r) s.

Definition formatAddress (addr : Address) : string :=
  if decide (PersonalName addr ≠ "") then
    PersonalName addr +:+ " <" +:+ MailboxName addr +:+ "@" +:+ HostName addr +:+ ">"
  else
    MailboxName addr +:+ "@" +:+ HostName addr.

(** [time.Time.MarshalJSON] writes a date in the format of RFC 3339, with
    a year of four digits, and returns an error for a year outside
    [0,9999]; the encoder wraps it. *)
Definition Time_MarshalJSON (d : Time) : option error :=
  if (0 <=? Year d) && (Year d <=? 9999) then None
  else Some (errorString
               ("json: error calling MarshalJSON for type time.Time: "
                +:+ "Time.MarshalJSON: year outside of range [0,9999]")).

(** The JSON text of a [jsonMail], kept as the members a parser reads in
    it. *)
Inductive JSON : Type :=
  | Object (members : jsonMail).

(** [encoder.Encode(jsonData)] on a [jsonMail], the last line feed trimmed:
    of the members of a [jsonMail] only the date can make the encoder
    fail. *)
Definition Encode (jsonData : jsonMail) : error + JSON :=
  match Time_MarshalJSON (jm_Date jsonData) with
  | Some err => inl err
  | None =>
    inr (Object
           {| jm_Uid := jm_Uid jsonData;
              jm_MessageID := jsonString (jm_MessageID jsonData);
              jm_Subject := jsonString (jm_Subject jsonData);
              jm_From := jsonString <$> jm_From jsonData;
              jm_Date := jm_Date jsonData;
              jm_Attachments := jsonString <$> jm_Attachments jsonData;
              jm_MimeType := jsonString (jm_MimeType jsonData);
              jm_MultipartMimeType := jsonString <$> jm_MultipartMimeType jsonData;
              jm_AttachmentMimeType := jsonString <$> jm_AttachmentMimeType jsonData |})
  end.

(** [json.Unmarshal(jsonData, &jm)] on a text the encoder wrote. *)
Definition Unmarshal_jsonMail (jsonData : JSON) : error + jsonMail :=
  match jsonData with
  | Object members => inr members
  end.

(** [mail.toJson] *)
Definition toJson (mail : mail) : error + JSON :=
  (* Convert mail.From to string slice *)
  let fromAddrs := formatAddress <$> From mail in
  (* Convert attachments to filename slice *)
  let attachmentNames := Filename <$> Attachments mail in
  (* Create JSON structure *)
  let jsonData :=
    {| jm_Uid := Uid mail;
       jm_MessageID := MessageID mail;
       jm_Subject := Subject mail;
       jm_From := fromAddrs;
       jm_Date := Date mail;
       jm_Attachments := attachmentNames;
       jm_MimeType := MimeType mail;
       jm_MultipartMimeType := MultipartMimeType mail;
       jm_AttachmentMimeType := AttachmentMimeType mail |} in
  match Encode jsonData with
  | inl err => inl err
  | inr text => inr text
  end.

(** [save], up to and including the write of the temporary file: the
    error to return, if any, and the world left behind. *)
Definition save_write (ml : mailList) (w : World) : option error * World :=
  match MarshalIndent ml with
  | inl err => (Some (Errorf "failed to marshal metadata" err), w)
  | inr data =>
    let tmpPath := path ml +:+ ".tmp" in
    match os.WriteFile tmpPath data w with
    | (Some err, w') => (Some (Errorf "failed to write temporary file" err), w')
    | (None, w') => (None, w')
    end
  end.

(** [save], from the rename on. *)
Definition save_rename (ml : mailList) (w : World) : option error * World :=
  let tmpPath := path ml +:+ ".tmp" in
  match os.Rename tmpPath (path ml) w with
  | (Some err, w') =>
    (Some (Errorf "failed to save metadata" err), (os.Remove tmpPath w').2)
  | (None, w') => (None, w')
  end.

(** [save] writes the metadata to disk atomically. *)
Definition save (ml : mailList) (w : World) : option error * World :=
  match save_write ml w with
  | (Some err, w') => (Some err, w')
  | (None, w') => save_rename ml w'
  end.

(** [addMail] adds a new mail to the list and saves the metadata.  A mail
    that cannot be converted leaves the list as it is; else the list is
    changed before [save] is called, whatever [save] returns. *)
Definition addMail (ml : mailList) (mail : mail) (w : World)
  : option error * mailList * World :=
  (* Convert mail to jsonMail *)
  match toJson mail with
  | inl err => (Some (Errorf "failed to convert mail to json" err), ml, w)
  | inr jsonData =>
    match Unmarshal_jsonMail jsonData with
    | inl err => (Some (Errorf "failed to parse mail json" err), ml, w)
    | inr jm =>
      (* Check if mail already exists *)
      match list_find (λ existing, jm_Uid existing = jm_Uid jm) (List ml) with
      | Some (i, _) =>
        (* Update existing entry *)
        let ml' := set_List (<[i := jm]> (List ml)) ml in
        let '(err, w') := save ml' w in (err, ml', w')
      | None =>
        (* Add new entry *)
        let ml' := set_List (List ml ++ [jm]) ml in
        let '(err, w') := save ml' w in (err, ml', w')
      end
    end
  end.

Definition fetchMeta (m : mail) (message : Message) : mail :=
  mkMail (msg_Uid message) (env_MessageId (msg_Envelope message))
    (env_Subject (msg_Envelope message)) (env_From (msg_Envelope message))
    (env_Date (msg_Envelope message)) (Body m) (Attachments m)
    (MimeType m) (MultipartMimeType m) (AttachmentMimeType m)
    (Error m).

(** [imap.fixUtf] *)
Definition fixUtf (str : string) : string :=
  let callable (r : rune) : rune :=
    if r =? RuneError then -1 else r in
  Map callable str.

(** The local variables of [fetchBody]. *)
Record locals : Type := mkLocals {
  bodies : list bytes;
  attachments : list attachment;
  count : counter.counter
}.

(** One turn of the loop of [fetchBody] on a part that [NextPart]
    returned: the locals to go on with, or the error to return. *)
Definition fetchPart (uid : N) (part : Part) (st : locals) : locals + error :=
  match Header part with
  | InlineHeader =>
    match part_Body part with
    | ReadErr err =>
      if decide (err = io_ErrUnexpectedEOF) then inl st else inr err
    | ReadOk body => inl (mkLocals (bodies st ++ [body]) (attachments st) (count st))
    end
  | AttachmentHeader (inl err) => inr err
  | AttachmentHeader (inr filename) =>
    match part_Body part with
    | ReadErr err => inr err
    | ReadOk body =>
      let mime := Detect body in
      let '(filename, count') :=
        if decide (filename = "") then
          let '(n, c) := counter.Next (count st) in
          (itoa uid +:+ "-" +:+ itoa n +:+ Extension mime, c)
        else (filename, count st) in
      let filename := fixUtf filename in
      (* Replace all slashes with dashes to prevent directory traversal *)
      let filename := ReplaceByte "/" "-" filename in
      inl (mkLocals (bodies st)
             (attachments st ++ [mkAttachment filename body (MIME_String mime)])
             count')
    end
  end.

(** The loop of [fetchBody]. *)
Fixpoint fetchParts (uid : N) (ps : list nextPart) (st : locals) : locals + error :=
  match ps with
  | [] => inl st
  | NextErr err :: _ =>
    if decide (err = io_EOF ∨ message err = "multipart: NextPart: EOF")
    then inl st else inr err
  | NextOk part :: rest =>
    match fetchPart uid part st with
    | inl st' => fetchParts uid rest st'
    | inr err => inr err
    end
  end.

(** [mail.fetchBody(reader)]: the mail as the call leaves it and the error
    returned. *)
Definition fetchBody (m : mail) (reader : Reader) : mail * option error :=
  let m :=
    match ContentType reader with
    | inr contentType => set_MimeType contentType m
    | inl _ => m
    end in
  match fetchParts (Uid m) (parts reader) (mkLocals [] [] counter.CreateCounter) with
  | inr err => (m, Some err)
  | inl st => (set_Attachments (attachments st) (set_Body (bodies st) m), None)
  end.

(** [mail.generatePdf]: [inr None] is a nil slice without error.  [count]
    is the number of pages added. *)
Definition generatePdf (mail : mail) : error + option bytes :=
  match NewPDFGenerator with
  | Some err => inl err
  | None =>
    let pages := filter (λ body, Is (Detect body) "text/html" = true) (Body mail) in
    match pages with
    | [] => inr None
    | _ => match wkhtmltopdf pages with
           | inl err => inl err
           | inr pdf => inr pdf
           end
    end
  end.

(** [mail.getDirectoryName(root, username)]; [None] is the run-time panic
    of [mail.From[0]] on an empty [From]. *)
Definition getDirectoryName (mail : mail) (root username : string) : option string :=
  match From mail with
  | [] => None
  | from0 :: _ =>
    Some (root +:+ "/" +:+ username +:+ "/"
          +:+ appendInt (Year (Date mail)) 4 +:+ appendInt (Month (Date mail)) 2
          +:+ "/" +:+ HostName from0)
  end.

Definition getErrorText (m : mail) : string :=
  "Error: " +:+ from_option message "" (Error m) +:+ newline
  +:+ "Subject: " +:+ Subject m +:+ newline
  +:+ "From: " +:+ Time_String (Date m) +:+ newline.

(** *** The imap file *)

(** The two loops of [fetchMessages] that detect the MIME type of each
    body part and of each attachment.  [mimetype.Detect] never returns nil. *)
Definition detectBodies (m : mail) : mail :=
  foldl (λ m body,
           if decide (0 < len body)%nat
           then set_MultipartMimeType (MultipartMimeType m ++ [MIME_String (Detect body)]) m
           else m)
        m (Body m).

Definition detectAttachments (m : mail) : mail :=
  foldl (λ m attachment,
           if decide (0 < len (att_Body attachment))%nat
           then set_AttachmentMimeType
                  (AttachmentMimeType m ++ [MIME_String (Detect (att_Body attachment))]) m
           else m)
        m (Attachments m).

(** One turn of the loop of [fetchMessages]: [None] when
    [message.GetBody(section)] is nil, else the mail sent on [mailsChan] and
    the reader to close, if there is one. *)
Definition fetchMessage (message : Message) : option (mail * option Reader) :=
  let m := fetchMeta new_mail message in
  (* Get MIME type from the message structure *)
  let m :=
    match msg_BodyStructure message with
    | Some bs => set_MimeType (MIMEType bs +:+ "/" +:+ MIMESubType bs) m
    | None => m
    end in
  match GetBody message with
  | None => None
  | Some (CreateErr err mailReader) => Some (set_Error (Some err) m, mailReader)
  | Some (CreateOk mailReader) =>
    let m := set_AttachmentMimeType [] (set_MultipartMimeType [] m) in
    let '(m, err) := fetchBody m mailReader in
    let m := set_Error err m in
    let m := detectBodies m in
    let m := detectAttachments m in
    Some (m, Some mailReader)
  end.

(** How a call of [fetchMessages] ends: it returns, or [log.Fatal] ends the
    process. *)
Inductive fetchEnd : Type :=
  | Returns (err : option error)
  | Exits (err : error).

(** [imap.fetchMessages(seqset, mailsChan)] on the messages that
    [UidFetch] delivers: the mails sent on [mailsChan], in order, and how the
    call ends. *)
Fixpoint fetchMessages (messages : list Message) : list mail * fetchEnd :=
  match messages with
  | [] => ([], Returns None)
  | message :: rest =>
    match fetchMessage message with
    | None => ([], Returns (Some (errorString "no reader")))
    | Some (m, mailReader) =>
      match mailReader ≫= Close with
      | Some err => ([m], Exits err)
      | None => let '(sent, e) := fetchMessages rest in (m :: sent, e)
      end
    end
  end.

(** *** The handlers file *)

Definition mimeType (mime : string) : string :=
  TrimSpace (Split_first ";" mime).

(** The characters of the class in [sanitizeSubject]. *)
Definition unsafeChars : list ascii :=
  ["/"; "\"; ":"; "*"; "?"; ascii_of_nat 34; "<"; ">"; "|"]%char.

(** [unsafeChars.ReplaceAllString(subject, "_")] *)
Fixpoint ReplaceAllString (subject : string) : string :=
  match subject with
  | EmptyString => EmptyString
  | String c t =>
    String (if decide (c ∈ unsafeChars) then "_"%char else c) (ReplaceAllString t)
  end.

(** [sanitizeSubject] removes or replaces unsafe characters in email
    subjects. *)
Definition sanitizeSubject (subject : string) : string :=
  ReplaceAllString (TrimSpace subject).

Definition formatDate (d : Time) : string :=
  appendInt (Year d) 4 +:+ "-" +:+ appendInt (Month d) 2 +:+ "-" +:+ appendInt (Day d) 2.

Definition baseFilename (m : mail) : string :=
  sanitizeSubject (Subject m) +:+ "-" +:+ formatDate (Date m) +:+ "-" +:+ itoa (Uid m).

(** The loop of [AttachmentHandler.Handle]. *)
Fixpoint writeAttachments (config : Config) (dir : string)
    (atts : list attachment) (w : World) : option error * World :=
  match atts with
  | [] => (None, w)
  | attachment :: rest =>
    if negb (Find (Attachments_Mimetypes config) (Mimetype attachment))
    then writeAttachments config dir rest w
    else
      match os.MkdirAll dir w with
      | (Some err, w') => (Some (Errorf "failed to create directory" err), w')
      | (None, w') =>
        match os.WriteFile (dir +:+ "/" +:+ Filename attachment) (att_Body attachment) w' with
        | (Some err, w'') =>
          if decide (err = PathError ENAMETOOLONG) then
            writeAttachments config dir rest
              (log_Println ("path too long: " +:+ message err) w'')
          else (Some (Errorf "failed to write attachment" err), w'')
        | (None, w'') => writeAttachments config dir rest w''
        end
      end
  end.

Definition AttachmentHandler_Handle (username : string) (config : Config)
    (m : mail) (w : World) : outcome (option error) :=
  match getDirectoryName m "attachment" username with
  | None => Panicked w
  | Some dir =>
    let '(err, w') := writeAttachments config dir (Attachments m) w in
    Returned err w'
  end.

Definition PDFHandler_Handle (username : string) (config : Config)
    (m : mail) (w : World) : outcome (option error) :=
  if negb (Find (Mails_Subjects config) (Subject m)) then Returned None w
  else
    match generatePdf m with
    | inl err => Returned (Some (Errorf "failed to generate PDF" err)) w
    | inr None => Returned None w
    | inr (Some pdf) =>
      match getDirectoryName m "mail" username with
      | None => Panicked w
      | Some mailDir =>
        match os.MkdirAll mailDir w with
        | (Some err, w') => Returned (Some (Errorf "failed to create directory" err)) w'
        | (None, w') =>
          let pdfFilename := mailDir +:+ "/" +:+ baseFilename m +:+ ".pdf" in
          match os.WriteFile pdfFilename pdf w' with
          | (Some err, w'') => Returned (Some (Errorf "failed to write PDF" err)) w''
          | (None, w'') => Returned None w''
          end
        end
      end
    end.

(** The loop of the multipart case of [TextHandler.Handle], from the body
    part of index [i] on. *)
Fixpoint writeParts (dir base : string) (i : nat) (bodies : list bytes)
    (w : World) : option error * World :=
  match bodies with
  | [] => (None, w)
  | body :: rest =>
    let detectedMimeType := MIME_String (Detect body) in
    let mt := mimeType detectedMimeType in
    if decide (mt = "text/plain") then
      match os.WriteFile (dir +:+ "/" +:+ base +:+ ".txt") body w with
      | (Some err, w') => (Some (Errorf "failed to write text file" err), w')
      | (None, w') => writeParts dir base (S i) rest w'
      end
    else if decide (mt = "text/html") then
      match os.WriteFile (dir +:+ "/" +:+ base +:+ ".html") body w with
      | (Some err, w') => (Some (Errorf "failed to write HTML file" err), w')
      | (None, w') => writeParts dir base (S i) rest w'
      end
    else
      writeParts dir base (S i) rest
        (log_Println ("Skipping unknown content type for body part "
                      +:+ pretty i +:+ ": " +:+ detectedMimeType) w)
  end.

Definition TextHandler_Handle (username : string) (config : Config)
    (m : mail) (w : World) : outcome (option error) :=
  match Body m with
  | [] => Returned None w  (* Skip if no text content *)
  | body0 :: _ =>
    match getDirectoryName m "mail" username with
    | None => Panicked w
    | Some dir =>
      match os.MkdirAll dir w with
      | (Some err, w') => Returned (Some (Errorf "failed to create directory" err)) w'
      | (None, w') =>
        let base := baseFilename m in
        let mt := mimeType (MimeType m) in
        if decide (mt = "text/plain") then
          match os.WriteFile (dir +:+ "/" +:+ base +:+ ".txt") body0 w' with
          | (Some err, w'') => Returned (Some (Errorf "failed to write text file" err)) w''
          | (None, w'') => Returned None w''
          end
        else if decide (mt = "text/html") then
          match os.WriteFile (dir +:+ "/" +:+ base +:+ ".html") body0 w' with
          | (Some err, w'') => Returned (Some (Errorf "failed to write HTML file" err)) w''
          | (None, w'') => Returned None w''
          end
        else if decide (mt = "multipart/alternative" ∨ mt = "multipart/mixed") then
          let '(err, w'') := writeParts dir base 0 (Body m) w' in Returned err w''
        else Returned None w'  (* Skip other MIME types *)
      end
    end
  end.

(** [MailHandler] and its three implementations, each with its
    [username]. *)
Inductive MailHandler : Type :=
  | AttachmentHandler (username : string)
  | PDFHandler (username : string)
  | TextHandler (username : string).

Definition Handle (h : MailHandler) : Config → mail → World → outcome (option error) :=
  match h with
  | AttachmentHandler username => AttachmentHandler_Handle username
  | PDFHandler username => PDFHandler_Handle username
  | TextHandler username => TextHandler_Handle username
  end.

(** *** main.go *)

(** What happens on [mailsChan]. *)
Inductive chanEvent : Type :=
  | Send (m : mail)
  | CloseChan.

(** The goroutine of [main] that fetches the messages: the events on
    [mailsChan], in order, and the error [log.Fatal] ended the process with,
    if it did.  [log.Fatal] is called on the error [fetchMessages] returns,
    and inside [fetchMessages]. *)
Definition producer (messages : list Message) : list chanEvent * option error :=
  match fetchMessages messages with
  | (sent, Returns None) => ((Send <$> sent) ++ [CloseChan], None)
  | (sent, Returns (Some err)) => (Send <$> sent, Some err)
  | (sent, Exits err) => (Send <$> sent, Some err)
  end.

(** The state of the loop [for mail := range mailsChan]. *)
Record received : Type := mkReceived {
  mails : list mail;
  index : mailList;
  world : World
}.

(** One turn of that loop. *)
Definition receive (st : received) (m : mail) : received :=
  let mails := mails st ++ [m] in
  match Error m with
  | None =>
    let '(err, ml, w) := addMail (index st) m (world st) in
    match err with
    | Some err =>
      mkReceived mails ml
        (log_Println ("Failed to update metadata for mail " +:+ itoa (Uid m)
                      +:+ ": " +:+ message err) w)
    | None => mkReceived mails ml w
    end
  | Some _ => mkReceived mails (index st) (world st)
  end.

Definition consumer (sent : list mail) (st : received) : received :=
  foldl receive st sent.

(** The loop over the handlers for one mail. *)
Fixpoint runHandlers (handlers : list MailHandler) (config : Config)
    (m : mail) (w : World) : outcome unit :=
  match handlers with
  | [] => Returned tt w
  | handler :: rest =>
    match Handle handler config m w with
    | Panicked w' => Panicked w'
    | Returned (Some err) w' =>
      runHandlers rest config m
        (log_Println ("Handler error for mail " +:+ itoa (Uid m) +:+ ": "
                      +:+ message err) w')
    | Returned None w' => runHandlers rest config m w'
    end
  end.

(** One turn of the loop that processes the messages. *)
Definition processMail (handlers : list MailHandler) (config : Config)
    (m : mail) (w : World) : outcome unit :=
  match Error m with
  | Some _ => Returned tt (log_Println (getErrorText m) w)
  | None => runHandlers handlers config m w
  end.

Fixpoint processMails (handlers : list MailHandler) (config : Config)
    (ms : list mail) (w : World) : outcome unit :=
  match ms with
  | [] => Returned tt w
  | m :: rest =>
    match processMail handlers config m w with
    | Panicked w' => Panicked w'
    | Returned _ w' => processMails handlers config rest w'
    end
  end.

(** The handlers of [main], in its order. *)
Definition handlers (username : string) : list MailHandler :=
  [AttachmentHandler username; PDFHandler username; TextHandler username].

(** ** Vocabulary of the properties *)

(** The parts [NextPart] yields before it first returns an error. *)
Fixpoint delivered (ps : list nextPart) : list Part :=
  match ps with
  | NextOk p :: rest => p :: delivered rest
  | _ => []
  end.

Definition isInline (p : Part) : bool :=
  match Header p with InlineHeader => true | AttachmentHeader _ => false end.

Definition isAttachment (p : Part) : bool :=
  match Header p with InlineHeader => false | AttachmentHeader _ => true end.

(** An inline part whose read ends in [io.ErrUnexpectedEOF]. *)
Definition isTruncated (p : Part) : bool :=
  match Header p, part_Body p with
  | InlineHeader, ReadErr err => bool_decide (err = io_ErrUnexpectedEOF)
  | _, _ => false
  end.

Definition countOf (kind : Part → bool) (ps : list Part) : nat :=
  length (filter (λ p, kind p = true) ps).

(** The number of delivered parts of a kind. *)
Definition countParts (kind : Part → bool) (reader : Reader) : nat :=
  countOf kind (delivered (parts reader)).

(** The declared file name and the content of every attachment part
    delivered and read. *)
Fixpoint declared (ps : list nextPart) : list (string * bytes) :=
  match ps with
  | NextOk p :: rest =>
    match Header p, part_Body p with
    | AttachmentHeader (inr filename), ReadOk body => (filename, body) :: declared rest
    | _, _ => declared rest
    end
  | _ => []
  end.

(** How many of the first [n] attachments declared no file name. *)
Definition unnamedAmong (n : nat) (aps : list (string * bytes)) : N :=
  N.of_nat (length (filter (λ d, d.1 = "") (take n aps))).

(** Does the reader made of a body section close without error? *)
Definition closes (c : createReader) : bool :=
  match c with
  | CreateOk mailReader => bool_decide (Close mailReader = None)
  | CreateErr _ (Some mailReader) => bool_decide (Close mailReader = None)
  | CreateErr _ None => true
  end.

(** A message that has the body section asked for, with a reader that
    closes without error. *)
Definition fetchable (message : Message) : bool :=
  match GetBody message with
  | None => false
  | Some c => closes c
  end.

(** The mails [fetchMessages] makes of the messages that have a body
    section. *)
Definition parsed (messages : list Message) : list mail :=
  omap (λ message, fst <$> fetchMessage message) messages.

(** The sniffed type of a body part, as the text handler reads it. *)
Definition sniffed (body : bytes) : string :=
  mimeType (MIME_String (Detect body)).

(** The files left by the text handler's loop over the body parts when
    every write succeeds: a part sniffed as [text/plain] goes to [txt], a
    part sniffed as [text/html] to [html], any other part nowhere. *)
Definition partsWritten (txt html : string) (bodies : list bytes)
    (fs : gmap string bytes) : gmap string bytes :=
  foldl (λ fs body,
           if decide (sniffed body = "text/plain") then <[txt := body]> fs
           else if decide (sniffed body = "text/html") then <[html := body]> fs
           else fs)
        fs bodies.

(** A string of ASCII bytes. *)
Fixpoint isASCII (s : string) : bool :=
  match s with
  | EmptyString => true
  | String c t => (byteZ c <? RuneSelf) && isASCII t
  end.

(** A string of ASCII bytes without a slash. *)
Fixpoint plain (s : string) : bool :=
  match s with
  | EmptyString => true
  | String c t => (byteZ c <? RuneSelf) && negb (bool_decide (c = "/"%char)) && plain t
  end.

(** The attachments the loop of [fetchBody] makes of the attachment parts
    [aps] when its counter stands at [c]. *)
Fixpoint named (uid : N) (c : N) (aps : list (string * bytes)) : list attachment :=
  match aps with
  | [] => []
  | (filename, body) :: rest =>
    let c' := if decide (filename = "") then (c + 1)%N else c in
    let filename' :=
      if decide (filename = "")
      then itoa uid +:+ "-" +:+ itoa c' +:+ Extension (Detect body)
      else filename in
    mkAttachment (ReplaceByte "/" "-" (fixUtf filename')) body (MIME_String (Detect body))
      :: named uid c' rest
  end.

(** What [addMail] does to the list. *)
Definition upsert (jm : jsonMail) (l : list jsonMail) : list jsonMail :=
  match list_find (λ existing, jm_Uid existing = jm_Uid jm) l with
  | Some (i, _) => <[i := jm]> l
  | None => l ++ [jm]
  end.

(** The entry [addMail] makes of a mail, when [toJson] and [json.Unmarshal]
    return no error. *)
Definition entry (m : mail) : option jsonMail :=
  match toJson m with
  | inl _ => None
  | inr jsonData =>
    match Unmarshal_jsonMail jsonData with
    | inl _ => None
    | inr jm => Some jm
    end
  end.

End MailDownloader.

(** ** Loading the index (mail.go, [newMailList]) *)

(** [syscall.ENOENT], by its text. *)
Definition ENOENT : string := "no such file or directory".

(** [os.ReadFile(name)] *)
Definition os_ReadFile (name : string) (w : World) : (error + bytes) * World :=
  match next_fault w with
  | (Succeeds, w') =>
    match files w' !! name with
    | Some data => (inr data, w')
    | None => (inl (PathError ENOENT), w')
    end
  | (Fails e _, w') => (inl e, w')
  end.

(** [os.IsNotExist(err)] *)
Definition os_IsNotExist (err : error) : bool :=
  bool_decide (err = PathError ENOENT).

(** What [json.Unmarshal] reads in a document for a [mailList]: the members
    the document has, of those the struct has a tag for.  [mu] and [path]
    are tagged [json:"-"]. *)
Record document : Type := mkDocument {
  doc_email : option string;
  doc_list : option (list jsonMail);
  doc_vendor : option string;
  doc_server : option string
}.

(** [json.Unmarshal(data, ml)], from the document on: a member of the
    document replaces the field, a field without member is left as it is. *)
Definition decodeInto (doc : document) (ml : mailList) : mailList :=
  mkMailList (default (Email ml) (doc_email doc))
             (default (List ml) (doc_list doc))
             (default (Vendor ml) (doc_vendor doc))
             (default (Server ml) (doc_server doc))
             (path ml).

(** The collaborators of [newMailList]: [filepath.Join], [filepath.Dir] and
    the parser of [json.Unmarshal]. *)
Class Loader : Type := {
  Join : string → string → string;
  Dir : string → string;
  Unmarshal : bytes → error + document
}.

Section Loading.

Context {loader : Loader}.

(** [newMailList] creates a new mailList or loads existing one. *)
Definition newMailList (email vendor server mailDir : string) (w : World)
  : (error + mailList) * World :=
  let ml := mkMailList email [] vendor server (Join mailDir "data.json") in
  (* Ensure directory exists *)
  match os.MkdirAll (Dir (path ml)) w with
  | (Some err, w') => (inl (Errorf "failed to create directory" err), w')
  | (None, w') =>
    (* Try to load existing data *)
    match os_ReadFile (path ml) w' with
    | (inl err, w'') =>
      if os_IsNotExist err then
        (* File doesn't exist yet, that's fine *)
        (inr ml, w'')
      else (inl (Errorf "failed to read metadata" err), w'')
    | (inr data, w'') =>
      match Unmarshal data with
      | inl err => (inl (Errorf "failed to parse metadata" err), w'')
      | inr doc => (inr (decodeInto doc ml), w'')
      end
    end
  end.

(** The document with every member of a [mailList]. *)
Definition document_of (ml : mailList) : document :=
  mkDocument (Some (Email ml)) (Some (List ml)) (Some (Vendor ml)) (Some (Server ml)).

End Loading.

(** ** Further vocabulary *)

Section Vocabulary.

Context {collab : Collaborators}.

(** The content of every inline part delivered and read. *)
Fixpoint inlineBodies (ps : list nextPart) : list bytes :=
  match ps with
  | NextOk p :: rest =>
    match Header p, part_Body p with
    | InlineHeader, ReadOk body => body :: inlineBodies rest
    | _, _ => inlineBodies rest
    end
  | _ => []
  end.

(** An error of [NextPart] that [fetchBody] takes for the end of the
    message. *)
Definition endOfParts (err : error) : Prop :=
  err = io_EOF ∨ message err = "multipart: NextPart: EOF".

(** The type declared for a message: that of the header of its body
    section when it can be read, else that of its body structure, else
    none. *)
Definition declaredType (message : Message) (contentType : error + string) : string :=
  match contentType with
  | inr ct => ct
  | inl _ =>
    match msg_BodyStructure message with
    | Some bs => MIMEType bs +:+ "/" +:+ MIMESubType bs
    | None => ""
    end
  end.

(** A byte that starts no UTF-8 sequence and is no ASCII byte. *)
Definition strayByte (c : ascii) : bool :=
  inRange 0x80 0xC1 (byteZ c) || inRange 0xF5 0xFF (byteZ c).

(** A string of digits and dashes. *)
Fixpoint numeric (s : string) : bool :=
  match s with
  | EmptyString => true
  | String c t =>
    (bool_decide (c = "-"%char) || inRange 0x30 0x39 (byteZ c)) && numeric t
  end.

(** The world a handler call leaves behind. *)
Definition world_of {A : Type} (o : outcome A) : World :=
  match o with
  | Returned _ w => w
  | Panicked w => w
  end.

(** The bodies [generatePdf] makes pages of. *)
Definition htmlBodies (m : mail) : list bytes :=
  filter (λ body, Is (Detect body) "text/html" = true) (Body m).

(** The attachments the attachment handler saves. *)
Definition matching (config : Config) (atts : list attachment) : list attachment :=
  filter (λ a, Find (Attachments_Mimetypes config) (Mimetype a) = true) atts.

(** The files left by writing attachments into [dir], one after the
    other. *)
Definition attachmentsWritten (dir : string) (atts : list attachment)
    (fs : gmap string bytes) : gmap string bytes :=
  foldl (λ fs a, <[dir +:+ "/" +:+ Filename a := att_Body a]> fs) fs atts.

(** The files the three handlers of [main] can write for a mail. *)
Definition outputPaths (username : string) (config : Config) (m : mail) : list string :=
  match getDirectoryName m "attachment" username, getDirectoryName m "mail" username with
  | Some attachmentDir, Some mailDir =>
    ((λ a, attachmentDir +:+ "/" +:+ Filename a) <$> matching config (Attachments m))
    ++ [mailDir +:+ "/" +:+ baseFilename m +:+ ".pdf";
        mailDir +:+ "/" +:+ baseFilename m +:+ ".txt";
        mailDir +:+ "/" +:+ baseFilename m +:+ ".html"]
  | _, _ => []
  end.

End Vocabulary.

(** ** Sample collaborators and inputs

    A content sniffer, a marshaller, a word search and a PDF generator to
    run the program on concrete inputs. *)

Module Sample.

Definition mime (essence params ext : string) : MIME :=
  mkMIME (essence +:+ params) ext (String.eqb essence).

(** Sniffs by the first bytes. *)
Definition sniff (body : bytes) : MIME :=
  if String.prefix "%PDF" body then mime "application/pdf" "" ".pdf"
  else if String.prefix "<html" body then mime "text/html" "; charset=utf-8" ".html"
  else if String.prefix "PK" body then mime "application/zip" "" ".zip"
  else mime "text/plain" "; charset=utf-8" ".txt".

(** One line for the account, one line per entry. *)
Definition marshal (ml : mailList) : error + bytes :=
  inr (Email ml +:+ newline
       +:+ String.concat newline
             ((λ jm, itoa (jm_Uid jm) +:+ " " +:+ jm_Subject jm) <$> List ml)).

Definition find (words : list string) (data : string) : bool :=
  bool_decide (data ∈ words).

Definition render (pages : list bytes) : error + option bytes :=
  inr (Some ("%PDF" +:+ String.concat "" pages)).

Definition timeString (d : Time) : string :=
  pretty (Year d) +:+ "-" +:+ pretty (Month d) +:+ "-" +:+ pretty (Day d).

Definition collaborators : Collaborators :=
  {| Detect := sniff;
     MarshalIndent := marshal;
     Find := find;
     NewPDFGenerator := None;
     wkhtmltopdf := render;
     Time_String := timeString |}.

#[local] Existing Instance collaborators.

Definition world0 : World := mkWorld ∅ ∅ [] [].

Definition index0 : mailList :=
  mkMailList "user@x" [] "imap" "imap.x" "mail/user@x/data.json".

Definition config0 : Config := mkConfig ["application/pdf"] ["Invoice"].

Definition sender : Address := mkAddress "A" "a" "b.com".

Definition envelope (subject : string) (from : list Address) : Envelope :=
  mkEnvelope (mkTime 2024 1 2) subject from "<id@b.com>".

Definition inline (body : bytes) : nextPart :=
  NextOk (mkPart InlineHeader (ReadOk body)).

Definition attached (filename : string) (body : bytes) : nextPart :=
  NextOk (mkPart (AttachmentHeader (inr filename)) (ReadOk body)).

Definition truncated : nextPart :=
  NextOk (mkPart InlineHeader (ReadErr io_ErrUnexpectedEOF)).

Definition reader (contentType : string) (ps : list nextPart) : Reader :=
  mkReader (inr contentType) ps None.

(** A message with a body section that parses. *)
Definition message (uid : N) (subject contentType : string)
    (ps : list nextPart) : Message :=
  mkMessage uid (envelope subject [sender]) None
    (Some (CreateOk (reader contentType ps))).

(** A message for which [GetBody] is nil. *)
Definition bodiless (uid : N) : Message :=
  mkMessage uid (envelope "No body" [sender]) None None.

(** A message whose body section is no mail. *)
Definition unparsable (uid : N) : Message :=
  mkMessage uid (envelope "Garbage" [sender]) None
    (Some (CreateErr (errorString "malformed MIME header") None)).

Definition broken : nextPart :=
  NextOk (mkPart InlineHeader (ReadErr (errorString "connection reset"))).

(** A text, a truncated part, two attachments without a name around one
    with a name. *)
Definition mixed_reader : Reader :=
  reader "multipart/mixed"
    [inline "hello"; truncated; attached "" "%PDF-1.4";
     attached "a/b.zip" "PKxx"; attached "" "PKyy"].

Definition mixed_message : Message :=
  mkMessage 7 (envelope "Invoice" [sender]) None (Some (CreateOk mixed_reader)).

Definition mixed_mail : mail :=
  Eval vm_compute in
    match fetchMessage mixed_message with
    | Some (m, _) => m
    | None => new_mail
    end.

(** A message whose second part cannot be read. *)
Definition broken_reader : Reader :=
  reader "multipart/mixed" [inline "a"; broken; inline "b"].

Definition broken_message : Message :=
  mkMessage 7 (envelope "Invoice" [sender]) None (Some (CreateOk broken_reader)).

Definition plain_message (uid : N) (subject : string) : Message :=
  message uid subject "text/plain" [inline "hello"].

Definition plain_mail (uid : N) (subject : string) : mail :=
  match fetchMessage (plain_message uid subject) with
  | Some (m, _) => m
  | None => new_mail
  end.

(** A multipart mail with two texts around a page. *)
Definition alternative_mail : mail :=
  mkMail 7 "<id@b.com>" "Invoice" [sender] (mkTime 2024 1 2)
    ["hello"; "<html>1"; "bye"] [] "multipart/alternative" [] [] None.

(** The same bodies under a declared type the text handler has no case
    for. *)
Definition related_mail : mail :=
  mkMail 7 "<id@b.com>" "Invoice" [sender] (mkTime 2024 1 2)
    ["hello"; "<html>1"; "bye"] [] "multipart/related" [] [] None.

Definition bodyless_mail : mail :=
  mkMail 7 "<id@b.com>" "Invoice" [sender] (mkTime 2024 1 2)
    [] [] "text/plain" [] [] None.

Definition failed_mail : mail :=
  mkMail 9 "<id@b.com>" "Garbage" [sender] (mkTime 2024 1 2)
    [] [] "" [] [] (Some (errorString "malformed MIME header")).

(** A message that parses, from an envelope without a sender. *)
Definition senderless_message : Message :=
  mkMessage 5 (envelope "Invoice" []) None
    (Some (CreateOk (reader "text/plain" [inline "hello"; attached "bill.pdf" "%PDF-1.4"]))).

Definition senderless_mail : mail :=
  Eval vm_compute in
    match fetchMessage senderless_message with
    | Some (m, _) => m
    | None => new_mail
    end.

Definition fresh : received := mkReceived [] index0 world0.

(** The entry of a mail that has one. *)
Definition indexed (m : mail) : jsonMail :=
  default (mkJsonMail 0 "" "" [] (mkTime 0 0 0) [] "" [] []) (entry m).

(** An index with two entries. *)
Definition stored : mailList :=
  Eval vm_compute in
    mkMailList "user@x" [indexed (plain_mail 1 "first"); indexed (plain_mail 2 "other")]
      "imap" "imap.x" "mail/user@x/data.json".

(** A mail of the year 10000, which [time.Time.MarshalJSON] refuses. *)
Definition late_mail : mail :=
  mkMail 4 "<id@b.com>" "Late" [sender] (mkTime 10000 1 2)
    ["hello"] [] "text/plain" [] [] None.

(** Paths with [/]; a parser that knows the document of [stored]. *)
Definition join (dir name : string) : string := dir +:+ "/" +:+ name.

Fixpoint dirname (p : string) : string :=
  match p with
  | EmptyString => EmptyString
  | String c rest => if Contains "/" rest then String c (dirname rest) else EmptyString
  end.

Definition unmarshal (data : bytes) : error + document :=
  if decide (inr data = marshal stored) then inr (document_of stored)
  else inl (errorString "invalid character").

Definition loader : Loader :=
  {| Join := join; Dir := dirname; Unmarshal := unmarshal |}.

#[local] Existing Instance loader.

(** A mail with a page, and one with two attachments of one name. *)
Definition page_mail : mail :=
  mkMail 7 "<id@b.com>" "Invoice" [sender] (mkTime 2024 1 2)
    ["hello"; "<html>1"; "<html>2"] [] "multipart/alternative" [] [] None.

Definition twice_mail : mail :=
  mkMail 8 "<id@b.com>" "Invoice" [sender] (mkTime 2024 1 2)
    ["hello"]
    [mkAttachment "bill.pdf" "%PDF-1" "application/pdf";
     mkAttachment "notes.zip" "PKzz" "application/zip";
     mkAttachment "bill.pdf" "%PDF-2" "application/pdf"]
    "multipart/mixed" [] [] None.

(** A message whose parts end in the error of the multipart reader, and
    one whose reader cannot be closed. *)
Definition ended_reader : Reader :=
  reader "multipart/mixed"
    [inline "a"; NextErr (errorString "multipart: NextPart: EOF"); inline "b"].

Definition ended_message : Message :=
  mkMessage 7 (envelope "Invoice" [sender]) None (Some (CreateOk ended_reader)).

Definition unclosed_reader : Reader :=
  mkReader (inr "text/plain") [inline "hello"] (Some (errorString "close failed")).

Definition unclosed_message : Message :=
  mkMessage 2 (envelope "Invoice" [sender]) None (Some (CreateOk unclosed_reader)).

End Sample.

(** ** Properties

    Stated for any collaborators. *)

Section Properties.

Context {collab : Collaborators}.

(** ** Facts about strings *)

Section Strings.

Lemma ofZ_byteZ (c : ascii) : ofZ (byteZ c) = c.
Proof. unfold ofZ, byteZ. by rewrite N2Z.id, ascii_N_embedding. Qed.

Lemma byteZ_nonneg (c : ascii) : 0 <= byteZ c.
Proof. unfold byteZ. lia. Qed.

Lemma plain_app (a b : string) : plain (a +:+ b) = plain a && plain b.
Proof. induction a as [|c a IH]; simpl; [done|]. rewrite IH. by rewrite !andb_assoc. Qed.

Lemma Contains_ReplaceByte (s : string) :
  Contains "/" (ReplaceByte "/" "-" s) = false.
Proof.
  induction s as [|c s IH]; simpl; [done|].
  rewrite IH, orb_false_r. case_decide; by apply bool_decide_eq_false.
Qed.

Lemma ReplaceByte_plain (s : string) : plain s = true → ReplaceByte "/" "-" s = s.
Proof.
  induction s as [|c s IH]; simpl; [done|].
  intros [[_ Hc]%andb_prop Hs]%andb_prop.
  apply negb_true_iff, bool_decide_eq_false in Hc.
  rewrite decide_False by done. by rewrite IH.
Qed.

Lemma plain_isASCII (s : string) : plain s = true → isASCII s = true.
Proof.
  induction s as [|c s IH]; simpl; [done|].
  intros [[Hc _]%andb_prop Hs]%andb_prop. by rewrite Hc, IH.
Qed.

(** [strings.Map] leaves ASCII text as it is when the mapping leaves ASCII
    runes as they are. *)
Lemma Map_ASCII (mapping : rune → rune) (s : string) :
  (∀ r, 0 <= r < RuneSelf → mapping r = r) →
  isASCII s = true → Map mapping s = s.
Proof.
  intros Hmap. unfold Map.
  induction s as [|c s IH]; simpl; [done|].
  intros [Hc Hs]%andb_prop.
  rewrite Hc. simpl.
  pose proof (byteZ_nonneg c) as H0.
  apply Z.ltb_lt in Hc.
  rewrite Hmap by lia. unfold RuneSelf in Hc.
  assert ((byteZ c <? 0) = false) as -> by (apply Z.ltb_ge; lia).
  unfold EncodeRune.
  assert (inRange 0 127 (byteZ c) = true) as ->.
  { unfold inRange. apply andb_true_intro. split; apply Z.leb_le; lia. }
  simpl. by rewrite ofZ_byteZ, IH.
Qed.

(** [fixUtf] leaves ASCII text as it is. *)
Lemma fixUtf_plain (s : string) : plain s = true → fixUtf s = s.
Proof.
  intros Hs%plain_isASCII. apply Map_ASCII; [|done].
  intros r Hr. unfold RuneSelf in Hr.
  assert ((r =? RuneError) = false) as -> by (apply Z.eqb_neq; unfold RuneError; lia).
  done.
Qed.


Lemma plain_pretty_N_go (x : N) (s : string) :
  plain s = true → plain (pretty_N_go x s) = true.
Proof.
  revert s. induction (N.lt_wf_0 x) as [x _ IH]; intros s Hs.
  destruct (decide (x = 0)%N) as [->|Hx]; [done|].
  rewrite pretty_N_go_step by lia.
  apply IH; [apply N.div_lt; lia|].
  simpl. rewrite Hs, andb_true_r.
  unfold pretty_N_char. by repeat case_match.
Qed.

Lemma plain_itoa (n : N) : plain (itoa n) = true.
Proof.
  unfold itoa, pretty, pretty_N. case_decide; [done|].
  by apply plain_pretty_N_go.
Qed.

(** A synthesized file name comes through [fixUtf] and the replacement of
    slashes as it is, when the sniffed extension is plain. *)
Lemma synthesized_plain (uid n : N) (ext : string) :
  plain ext = true →
  ReplaceByte "/" "-" (fixUtf (itoa uid +:+ "-" +:+ itoa n +:+ ext))
  = itoa uid +:+ "-" +:+ itoa n +:+ ext.
Proof.
  intros Hext.
  assert (plain (itoa uid +:+ "-" +:+ itoa n +:+ ext) = true) as Hp.
  { rewrite !plain_app, !plain_itoa, Hext. done. }
  by rewrite (fixUtf_plain _ Hp), (ReplaceByte_plain _ Hp).
Qed.

End Strings.

(** ** Properties of the mail parser *)

Section Parser.

(** The setters commute with the reads of the other fields. *)
Lemma detectBodies_spec (m : mail) :
  detectBodies m =
  set_MultipartMimeType
    (MultipartMimeType m ++
       (MIME_String ∘ Detect <$> filter (λ body, 0 < len body)%nat (Body m))) m.
Proof.
  unfold detectBodies.
  generalize (Body m). intros bs.
  revert m. induction bs as [|b bs IH]; intros m; simpl.
  - rewrite app_nil_r. by destruct m.
  - rewrite filter_cons. case_decide; rewrite IH; simpl.
    + by rewrite <- app_assoc.
    + done.
Qed.

Lemma detectAttachments_spec (m : mail) :
  detectAttachments m =
  set_AttachmentMimeType
    (AttachmentMimeType m ++
       (MIME_String ∘ Detect <$>
          filter (λ body, 0 < len body)%nat (att_Body <$> Attachments m))) m.
Proof.
  unfold detectAttachments.
  generalize (Attachments m). intros atts.
  revert m. induction atts as [|a atts IH]; intros m; simpl.
  - rewrite app_nil_r. by destruct m.
  - rewrite filter_cons. case_decide; rewrite IH; simpl.
    + by rewrite <- app_assoc.
    + done.
Qed.

(** What [fetchMessages] makes of a message whose body section parses into
    a reader: the error of the mail is the error of [fetchBody]. *)
Lemma fetchMessage_CreateOk (message : Message) (mailReader : Reader) :
  GetBody message = Some (CreateOk mailReader) →
  ∃ m, fetchMessage message = Some (m, Some mailReader)
       ∧ Uid m = msg_Uid message
       ∧ From m = env_From (msg_Envelope message)
       ∧ Error m =
           match fetchParts (msg_Uid message) (parts mailReader)
                   (mkLocals [] [] counter.CreateCounter) with
           | inl _ => None
           | inr err => Some err
           end
       ∧ (∀ st, fetchParts (msg_Uid message) (parts mailReader)
                  (mkLocals [] [] counter.CreateCounter) = inl st →
            Body m = bodies st ∧ Attachments m = attachments st)
       ∧ MultipartMimeType m =
           (MIME_String ∘ Detect <$> filter (λ body, 0 < len body)%nat (Body m))
       ∧ AttachmentMimeType m =
           (MIME_String ∘ Detect <$>
              filter (λ body, 0 < len body)%nat (att_Body <$> Attachments m)).
Proof.
  intros HB. unfold fetchMessage. rewrite HB.
  unfold fetchBody.
  set (m0 := set_AttachmentMimeType _ _).
  set (m1 := match ContentType mailReader with inl _ => m0 | inr c => set_MimeType c m0 end).
  assert (Hu : Uid m1 = msg_Uid message).
  { unfold m1, m0. by destruct (ContentType mailReader), (msg_BodyStructure message). }
  assert (Hf : From m1 = env_From (msg_Envelope message)).
  { unfold m1, m0. by destruct (ContentType mailReader), (msg_BodyStructure message). }
  assert (Hm : MultipartMimeType m1 = [] ∧ AttachmentMimeType m1 = []).
  { unfold m1, m0. by destruct (ContentType mailReader), (msg_BodyStructure message). }
  destruct Hm as [Hm Ha].
  rewrite Hu.
  destruct (fetchParts _ _ _) as [st|err]; eexists; (split; [reflexivity|]);
    rewrite detectAttachments_spec, detectBodies_spec; simpl;
    rewrite ?Hm, ?Ha; simpl; repeat split; try done; congruence.
Qed.

(** The parts read without error before a part leave the loop in a state
    from which it goes on. *)
Lemma fetchParts_app (uid : N) (pre : list Part) (ps : list nextPart) (st st' : locals) :
  fetchParts uid (NextOk <$> pre) st = inl st' →
  fetchParts uid ((NextOk <$> pre) ++ ps) st = fetchParts uid ps st'.
Proof.
  revert st. induction pre as [|p pre IH]; intros st; simpl.
  - by intros [= ->].
  - destruct (fetchPart uid p st) as [st1|err]; [apply IH | done].
Qed.

(** C9.  In the loop of [fetchBody], whatever was read before ([st]) and
    whatever follows ([rest]): an inline part whose read ends in
    [io.ErrUnexpectedEOF] is skipped, the loop going on with the same bodies,
    attachments and counter; any other read error on an inline part, and
    any read error on an attachment part, [io.ErrUnexpectedEOF] among them,
    is returned.  The error returned, wherever in the message the part is,
    is the [Error] of the mail sent on [mailsChan]; a skipped part leaves no
    error. *)
Theorem inline_unexpected_EOF_skipped_other_read_errors_returned
    (uid : N) (rest : list nextPart) (st : locals) :
  fetchParts uid (NextOk (mkPart InlineHeader (ReadErr io_ErrUnexpectedEOF)) :: rest) st
    = fetchParts uid rest st
  ∧ (∀ err, err ≠ io_ErrUnexpectedEOF →
       fetchParts uid (NextOk (mkPart InlineHeader (ReadErr err)) :: rest) st = inr err)
  ∧ (∀ filename err,
       fetchParts uid
         (NextOk (mkPart (AttachmentHeader (inr filename)) (ReadErr err)) :: rest) st
       = inr err)
  ∧ (∀ message mailReader pre ps,
       GetBody message = Some (CreateOk mailReader) →
       msg_Uid message = uid →
       parts mailReader = (NextOk <$> pre) ++ ps →
       fetchParts uid (NextOk <$> pre) (mkLocals [] [] counter.CreateCounter) = inl st →
       ∃ m, fetchMessage message = Some (m, Some mailReader)
            ∧ match fetchParts uid ps st with
              | inr err => Error m = Some err
              | inl st' => Error m = None ∧ Body m = bodies st'
              end).
Proof.
  repeat split.
  - intros err Hne. simpl. unfold fetchPart. simpl.
    destruct (decide (err = io_ErrUnexpectedEOF)); congruence.
  - intros message mailReader pre ps HB Hu Hps Hpre.
    destruct (fetchMessage_CreateOk message mailReader HB)
      as (m & Hm & _ & _ & He & Hst & _).
    exists m. split; [done|].
    rewrite Hu, Hps, (fetchParts_app _ _ _ _ _ Hpre) in He, Hst.
    destruct (fetchParts uid ps st) as [st'|err]; [|done].
    split; [done|]. by destruct (Hst st').
Qed.

(** *** Sizes of [Body] and [Attachments] *)

Lemma countOf_cons (kind : Part → bool) (p : Part) (ps : list Part) :
  countOf kind (p :: ps) = ((if kind p then 1 else 0) + countOf kind ps)%nat.
Proof.
  unfold countOf. rewrite filter_cons.
  destruct (kind p); case_decide; simpl; congruence.
Qed.

Lemma fetchParts_lengths (uid : N) (ps : list nextPart) (st st' : locals) :
  fetchParts uid ps st = inl st' →
  (length (bodies st') + countOf isTruncated (delivered ps)
   = length (bodies st) + countOf isInline (delivered ps))%nat
  ∧ (length (attachments st')
     = length (attachments st) + countOf isAttachment (delivered ps))%nat.
Proof.
  revert st. induction ps as [|[p|err] ps IH]; intros st; simpl.
  - intros [= ->]. unfold countOf. simpl. lia.
  - rewrite !countOf_cons.
    destruct p as [[|[err|filename]] [body|err']];
      unfold fetchPart; simpl; try done.
    + intros [H1 H2]%IH. simpl in *. rewrite length_app in H1. simpl in *. lia.
    + case_decide as He; [|done]. subst err'.
      change (isTruncated _) with true. intros [H1 H2]%IH. lia.
    + destruct (decide (filename = "")); simpl;
        intros [H1 H2]%IH; simpl in *; rewrite length_app in H2; simpl in *; lia.
  - case_decide; [|done]. intros [= ->]. unfold countOf. simpl. lia.
Qed.

(** C5, as amended.  For a message whose parse succeeds, with [k] inline
    parts of which [s] end in [io.ErrUnexpectedEOF] and [a] attachment
    parts: [Body] has [k - s] entries and [Attachments] has [a];
    [MultipartMimeType] is the sniffed type of the non-empty entries of
    [Body], in their order, and [AttachmentMimeType] that of the non-empty
    attachments, so they have at most [k] and [a] entries. *)
Theorem parsed_mail_lists (message : Message) (mailReader : Reader)
    (m : mail) (r : option Reader) :
  GetBody message = Some (CreateOk mailReader) →
  fetchMessage message = Some (m, r) →
  Error m = None →
  (length (Body m) + countParts isTruncated mailReader
   = countParts isInline mailReader)%nat
  ∧ length (Attachments m) = countParts isAttachment mailReader
  ∧ MultipartMimeType m
    = (MIME_String ∘ Detect <$> filter (λ body, 0 < len body)%nat (Body m))
  ∧ AttachmentMimeType m
    = (MIME_String ∘ Detect <$>
         filter (λ body, 0 < len body)%nat (att_Body <$> Attachments m))
  ∧ (length (MultipartMimeType m) ≤ countParts isInline mailReader)%nat
  ∧ (length (AttachmentMimeType m) ≤ countParts isAttachment mailReader)%nat.
Proof.
  intros HB Hm He.
  destruct (fetchMessage_CreateOk message mailReader HB)
    as (m' & Hm' & _ & _ & He' & Hst & HM & HA).
  rewrite Hm in Hm'. injection Hm' as <- _.
  destruct (fetchParts _ _ _) as [st|err] eqn:Hps; [|congruence].
  destruct (Hst st eq_refl) as [Hb Ha].
  apply fetchParts_lengths in Hps as [H1 H2]. simpl in H1, H2.
  unfold countParts.
  rewrite <- Hb in H1. rewrite <- Ha in H2.
  repeat split; try done.
  - rewrite HM, length_fmap. etrans; [apply length_filter|]. lia.
  - rewrite HA, length_fmap. etrans; [apply length_filter|].
    rewrite length_fmap. lia.
Qed.

(** *** Names of the attachments *)

Lemma fetchParts_attachments (uid : N) (ps : list nextPart) (st st' : locals) :
  fetchParts uid ps st = inl st' →
  attachments st' = attachments st ++ named uid (count st) (declared ps).
Proof.
  revert st. induction ps as [|[p|err] ps IH]; intros st; simpl.
  - intros [= ->]. by rewrite app_nil_r.
  - destruct p as [[|[err|filename]] [body|err']]; unfold fetchPart; simpl; try done.
    + intros ->%IH. done.
    + case_decide; [|done]. intros ->%IH. done.
    + destruct (decide (filename = "")); simpl; intros ->%IH; simpl;
        by rewrite <- app_assoc.
  - case_decide; [|done]. intros [= ->]. by rewrite app_nil_r.
Qed.

Lemma named_length (uid c : N) (aps : list (string * bytes)) :
  length (named uid c aps) = length aps.
Proof.
  revert c. induction aps as [|[f b] aps IH]; intros c; simpl; [done|].
  by rewrite IH.
Qed.

Lemma unnamedAmong_S (d : string * bytes) (aps : list (string * bytes)) (n : nat) :
  unnamedAmong (S n) (d :: aps)
  = ((if decide (d.1 = "") then 1 else 0) + unnamedAmong n aps)%N.
Proof.
  unfold unnamedAmong. simpl. rewrite filter_cons.
  case_decide; simpl; lia.
Qed.

Lemma named_lookup (uid c : N) (aps : list (string * bytes)) (i : nat)
    (filename : string) (body : bytes) :
  aps !! i = Some (filename, body) →
  named uid c aps !! i =
  Some (mkAttachment
          (ReplaceByte "/" "-"
             (fixUtf (if decide (filename = "")
                      then itoa uid +:+ "-" +:+ itoa (c + unnamedAmong (S i) aps)
                           +:+ Extension (Detect body)
                      else filename)))
          body (MIME_String (Detect body))).
Proof.
  revert c i. induction aps as [|[f b] aps IH]; intros c i; [done|].
  destruct i as [|i].
  - intros [= -> ->]. simpl. rewrite unnamedAmong_S. simpl.
    unfold unnamedAmong. rewrite take_0. simpl.
    case_decide; [|done]. by rewrite N.add_0_r.
  - intros Hi. cbn [named lookup list_lookup].
    rewrite (IH _ _ Hi). rewrite (unnamedAmong_S (f, b)). simpl.
    destruct (decide (f = "")), (decide (filename = "")); try done.
    by rewrite N.add_assoc.
Qed.

Lemma unnamedAmong_mono (aps : list (string * bytes)) (i j : nat) (body : bytes) :
  (i < j)%nat → aps !! j = Some ("", body) →
  (unnamedAmong (S i) aps < unnamedAmong (S j) aps)%N.
Proof.
  intros Hij Hj. unfold unnamedAmong.
  rewrite (take_S_r _ _ _ Hj), filter_app, length_app.
  rewrite filter_cons, decide_True by done. simpl.
  assert (take (S i) aps = take (S i) (take j aps)) as ->.
  { rewrite take_take. f_equal. lia. }
  rewrite <- (take_drop (S i) (take j aps)) at 2.
  rewrite filter_app, length_app. lia.
Qed.

(** C6.  In a mail whose parse succeeds, the attachments are those of the
    attachment parts, in order, each with the content read and the type
    sniffed from it, and no file name holds a slash.  An attachment that
    declared no file name is named after [fixUtf] and the replacement of
    slashes applied to [<uid>-<ordinal><extension>]: the extension is that
    of the very sniff that gives its [Mimetype], the ordinal is the number
    of unnamed attachments of this mail up to and including this one, so
    it grows from one unnamed attachment to the next; with an extension of
    ASCII bytes without a slash the name is [<uid>-<ordinal><extension>]
    itself. *)
Theorem attachment_filenames (message : Message) (mailReader : Reader)
    (m : mail) (r : option Reader) :
  GetBody message = Some (CreateOk mailReader) →
  fetchMessage message = Some (m, r) →
  Error m = None →
  let aps := declared (parts mailReader) in
  length (Attachments m) = length aps
  ∧ ∀ i filename body,
      aps !! i = Some (filename, body) →
      ∃ a, Attachments m !! i = Some a
        ∧ att_Body a = body
        ∧ Mimetype a = MIME_String (Detect body)
        ∧ Contains "/" (Filename a) = false
        ∧ (filename = "" →
           let ordinal := unnamedAmong (S i) aps in
           let synthesized :=
             itoa (Uid m) +:+ "-" +:+ itoa ordinal +:+ Extension (Detect body) in
           Filename a = ReplaceByte "/" "-" (fixUtf synthesized)
           ∧ (plain (Extension (Detect body)) = true → Filename a = synthesized)
           ∧ ∀ j body', (i < j)%nat → aps !! j = Some ("", body') →
               (ordinal < unnamedAmong (S j) aps)%N).
Proof.
  intros HB Hm He aps.
  destruct (fetchMessage_CreateOk message mailReader HB)
    as (m' & Hm' & Hu & _ & He' & Hst & _).
  rewrite Hm in Hm'. injection Hm' as <- _.
  destruct (fetchParts _ _ _) as [st|err] eqn:Hps; [|congruence].
  destruct (Hst st eq_refl) as [_ Ha].
  apply fetchParts_attachments in Hps. simpl in Hps.
  rewrite <- Ha in Hps. fold aps in Hps. rewrite Hps, Hu.
  split; [apply named_length|].
  intros i filename body Hi.
  eexists. split; [by apply named_lookup|]. simpl.
  split; [done|]. split; [done|]. split; [apply Contains_ReplaceByte|].
  intros ->. rewrite decide_True by done.
  change (counter.CreateCounter + ?n)%N with (0 + n)%N. rewrite N.add_0_l.
  split; [done|]. split.
  - intros Hext. by apply synthesized_plain.
  - intros j body' Hij Hj. by eapply unnamedAmong_mono.
Qed.

End Parser.

(** ** Properties of the fetch pipeline *)

Section Pipeline.

Lemma fetchMessage_Uid (message : Message) (m : mail) (r : option Reader) :
  fetchMessage message = Some (m, r) → Uid m = msg_Uid message.
Proof.
  destruct (GetBody message) as [[mailReader|err mailReader]|] eqn:HB.
  - destruct (fetchMessage_CreateOk message mailReader HB) as (m' & -> & Hu & _).
    by intros [= <- _].
  - unfold fetchMessage. rewrite HB. intros [= <- _].
    by destruct (msg_BodyStructure message).
  - unfold fetchMessage. by rewrite HB.
Qed.

Lemma fetchMessage_fetchable (message : Message) :
  fetchable message = true →
  ∃ m r, fetchMessage message = Some (m, r) ∧ r ≫= Close = None.
Proof.
  unfold fetchable.
  destruct (GetBody message) as [[mailReader|err [mailReader|]]|] eqn:HB;
    simpl; try done.
  - intros Hc%bool_decide_eq_true.
    destruct (fetchMessage_CreateOk message mailReader HB) as (m & -> & _).
    by exists m, (Some mailReader).
  - intros Hc%bool_decide_eq_true. unfold fetchMessage. rewrite HB. eauto.
  - intros _. unfold fetchMessage. rewrite HB. eauto.
Qed.

Lemma parsed_cons (message : Message) (rest : list Message)
    (m : mail) (r : option Reader) :
  fetchMessage message = Some (m, r) → parsed (message :: rest) = m :: parsed rest.
Proof. unfold parsed. simpl. by intros ->. Qed.

(** Fetchable messages are turned into mails one by one, and the loop goes
    on with what follows. *)
Lemma fetchMessages_fetchable (pre rest : list Message) :
  Forall (λ message, fetchable message = true) pre →
  fetchMessages (pre ++ rest)
  = (parsed pre ++ (fetchMessages rest).1, (fetchMessages rest).2).
Proof.
  induction 1 as [|message pre Hm _ IH].
  - simpl. by destruct (fetchMessages rest).
  - destruct (fetchMessage_fetchable message Hm) as (m & r & Hf & Hc).
    rewrite (parsed_cons _ _ _ _ Hf). simpl. by rewrite Hf, Hc, IH.
Qed.

Lemma parsed_fetchable (messages : list Message) :
  Forall (λ message, fetchable message = true) messages →
  Uid <$> parsed messages = msg_Uid <$> messages.
Proof.
  induction 1 as [|message rest Hm _ IH]; [done|].
  destruct (fetchMessage_fetchable message Hm) as (m & r & Hf & _).
  rewrite (parsed_cons _ _ _ _ Hf), !fmap_cons.
  by rewrite IH, (fetchMessage_Uid _ _ _ Hf).
Qed.

(** C2, as amended.  When every message delivered has the body section
    asked for and every mail reader closes without error, the producer sends
    exactly one mail per message, in the order of delivery and with the
    [Uid] of its message, whether its parse succeeded or not, and then
    closes [mailsChan], once. *)
Theorem producer_one_mail_per_message (messages : list Message) :
  Forall (λ message, fetchable message = true) messages →
  producer messages = ((Send <$> parsed messages) ++ [CloseChan], None)
  ∧ length (parsed messages) = length messages
  ∧ Uid <$> parsed messages = msg_Uid <$> messages.
Proof.
  intros Hall.
  pose proof (fetchMessages_fetchable messages [] Hall) as Hf.
  rewrite !app_nil_r in Hf. simpl in Hf.
  pose proof (parsed_fetchable messages Hall) as Hu.
  repeat split; [|by rewrite <- (length_fmap Uid), Hu, length_fmap|done].
  unfold producer. by rewrite Hf.
Qed.

(** C1, as amended.  A message without the body section asked for gets no
    mail: [fetchMessages] stops at it with the error "no reader", having
    sent the mails of the messages before it and none for it or for any
    message after it, and the producer ends the process without closing
    [mailsChan].  (The variable [err] the producer assigns is the one [main]
    assigns from [newMailList]; once a mail has been received, [main] does
    not write it again, so the producer is taken after a first mail.)  A
    message whose body section is no mail, or whose parts cannot be read, is
    sent as a mail with its [Error] set, to the error of [CreateReader] or
    of [fetchBody], and the loop goes on with the messages after it.  A mail
    with its [Error] set is kept by the consumer without a call of
    [addMail], and is logged without a call of any handler. *)
Theorem unreadable_message_handling :
  (∀ pre message rest,
     Forall (λ message, fetchable message = true) pre →
     GetBody message = None →
     fetchMessages (pre ++ message :: rest)
       = (parsed pre, Returns (Some (errorString "no reader")))
     ∧ (pre ≠ [] →
        producer (pre ++ message :: rest)
        = (Send <$> parsed pre, Some (errorString "no reader"))))
  ∧ (∀ pre message rest,
       Forall (λ message, fetchable message = true) pre →
       fetchable message = true →
       ∃ m r, fetchMessage message = Some (m, r)
         ∧ (∀ err mailReader,
              GetBody message = Some (CreateErr err mailReader) → Error m = Some err)
         ∧ (∀ mailReader err,
              GetBody message = Some (CreateOk mailReader) →
              fetchParts (msg_Uid message) (parts mailReader)
                (mkLocals [] [] counter.CreateCounter) = inr err →
              Error m = Some err)
         ∧ (∀ mailReader m0,
              GetBody message = Some (CreateOk mailReader) →
              Uid m0 = msg_Uid message →
              Error m = (fetchBody m0 mailReader).2)
         ∧ fetchMessages (pre ++ message :: rest)
           = (parsed pre ++ m :: (fetchMessages rest).1, (fetchMessages rest).2))
  ∧ (∀ st m, Error m ≠ None →
       receive st m = mkReceived (mails st ++ [m]) (index st) (world st))
  ∧ (∀ hs config m w, Error m ≠ None →
       processMail hs config m w = Returned tt (log_Println (getErrorText m) w)).
Proof.
  split; [|split; [|split]].
  - intros pre message rest Hpre HB.
    assert (fetchMessages (pre ++ message :: rest)
            = (parsed pre, Returns (Some (errorString "no reader")))) as Hf.
    { rewrite (fetchMessages_fetchable _ _ Hpre). simpl.
      unfold fetchMessage. rewrite HB. simpl. by rewrite app_nil_r. }
    split; [done|]. intros _. unfold producer. by rewrite Hf.
  - intros pre message rest Hpre Hm.
    destruct (fetchMessage_fetchable message Hm) as (m & r & Hf & Hc).
    exists m, r. split; [done|]. split; [|split; [|split]].
    + intros err mailReader HB. unfold fetchMessage in Hf. rewrite HB in Hf.
      by injection Hf as <- _.
    + intros mailReader err HB Hparts.
      destruct (fetchMessage_CreateOk message mailReader HB)
        as (m' & Hf' & _ & _ & He & _).
      rewrite Hf in Hf'. injection Hf' as <- _. by rewrite He, Hparts.
    + intros mailReader m0 HB Hu.
      destruct (fetchMessage_CreateOk message mailReader HB)
        as (m' & Hf' & _ & _ & He & _).
      rewrite Hf in Hf'. injection Hf' as <- _. rewrite He.
      unfold fetchBody.
      assert (∀ m1, Uid m1 = msg_Uid message →
                (match fetchParts (Uid m1) (parts mailReader)
                         (mkLocals [] [] counter.CreateCounter) with
                 | inl st => (set_Attachments (attachments st)
                                (set_Body (bodies st) m1), None)
                 | inr err => (m1, Some err)
                 end).2
                = match fetchParts (msg_Uid message) (parts mailReader)
                          (mkLocals [] [] counter.CreateCounter) with
                  | inl _ => None
                  | inr err => Some err
                  end) as Hgen.
      { intros m1 ->. by destruct (fetchParts _ _ _). }
      symmetry. apply Hgen. by destruct (ContentType mailReader).
    + rewrite (fetchMessages_fetchable _ _ Hpre). simpl. rewrite Hf, Hc.
      by destruct (fetchMessages rest).
  - intros st m He. unfold receive. by destruct (Error m).
  - intros hs config m w He. unfold processMail. by destruct (Error m).
Qed.

End Pipeline.

(** ** Properties of the metadata index *)

Section Index.

Lemma length_append (a b : string) :
  String.length (a +:+ b) = (String.length a + String.length b)%nat.
Proof. induction a as [|c a IH]; simpl; [done|]. by rewrite IH. Qed.

(** The temporary file is not the target. *)
Lemma tmpPath_ne (p : string) : p +:+ ".tmp" ≠ p.
Proof.
  intros H. apply (f_equal String.length) in H.
  rewrite length_append in H. simpl in H. lia.
Qed.

Lemma next_fault_files (w : World) : files (next_fault w).2 = files w.
Proof. unfold next_fault. by destruct (faults w). Qed.

(** Writing the temporary file leaves the target as it was, whether the
    write succeeds, fails, or fails half way. *)
Lemma save_write_target (ml : mailList) (w : World) :
  files (save_write ml w).2 !! path ml = files w !! path ml.
Proof.
  unfold save_write. destruct (MarshalIndent ml) as [err|data]; [done|].
  unfold os.WriteFile, next_fault.
  destruct (faults w) as [|[|e [part|]] fs]; simpl;
    rewrite ?lookup_insert_ne by apply tmpPath_ne; done.
Qed.

(** A write of the temporary file that succeeds leaves the whole document
    in it. *)
Lemma save_write_tmp (ml : mailList) (w w' : World) :
  save_write ml w = (None, w') →
  ∃ data, MarshalIndent ml = inr data
          ∧ files w' !! (path ml +:+ ".tmp") = Some data.
Proof.
  unfold save_write. destruct (MarshalIndent ml) as [err|data]; [done|].
  unfold os.WriteFile, next_fault.
  destruct (faults w) as [|[|e [part|]] fs]; simpl; intros [= <-];
    exists data; (split; [done|]); simpl; apply lookup_insert_eq.
Qed.

(** The rename puts the content of the temporary file in the target, or
    leaves the target as it was. *)
Lemma save_rename_target (ml : mailList) (w : World) (data : bytes) :
  files w !! (path ml +:+ ".tmp") = Some data →
  match save_rename ml w with
  | (None, w') => files w' !! path ml = Some data
  | (Some _, w') => files w' !! path ml = files w !! path ml
  end.
Proof.
  intros Htmp. unfold save_rename, os.Rename, os.Remove, next_fault.
  destruct (faults w) as [|[|e part] fs]; simpl.
  all: rewrite ?Htmp; simpl.
  - by rewrite lookup_insert_eq.
  - by rewrite lookup_insert_eq.
  - destruct fs as [|[|e' part'] fs]; simpl;
      rewrite ?lookup_delete_ne by apply tmpPath_ne; done.
Qed.

(** With every system call succeeding, [save] returns no error and leaves
    the document in the target, and no temporary file. *)
Lemma save_succeeds (ml : mailList) (w : World) (data : bytes) :
  faults w = [] →
  MarshalIndent ml = inr data →
  (save ml w).1 = None
  ∧ files (save ml w).2
    = <[path ml := data]> (delete (path ml +:+ ".tmp")
                             (<[path ml +:+ ".tmp" := data]> (files w))).
Proof.
  intros Hf Hd. unfold save, save_write, save_rename. rewrite Hd.
  unfold os.WriteFile, os.Rename, next_fault. rewrite Hf. simpl. rewrite Hf. simpl.
  by rewrite lookup_insert_eq.
Qed.

(** C4.  [save] writes the whole document to the temporary file and then
    renames it to the target: a write that returns no error has left the
    whole document in the temporary file, and with every system call
    succeeding [save] returns no error, the target holds the whole new
    document and the temporary file is gone.  Between the write and the
    rename, whatever became of the write, the target holds what it held
    before; a rename that fails leaves it so.  After [save], the target
    holds the whole new document when [save] returns no error, and what it
    held before when it returns one.  So the target never holds a part of a
    document. *)
Theorem save_keeps_target_whole (ml : mailList) (w : World) :
  files (save_write ml w).2 !! path ml = files w !! path ml
  ∧ match save ml w with
    | (None, w') =>
      ∃ data, MarshalIndent ml = inr data ∧ files w' !! path ml = Some data
    | (Some _, w') => files w' !! path ml = files w !! path ml
    end
  ∧ (∀ w1, save_write ml w = (None, w1) →
       (∃ data, MarshalIndent ml = inr data
                ∧ files w1 !! (path ml +:+ ".tmp") = Some data)
       ∧ save ml w = save_rename ml w1
       ∧ ((save_rename ml w1).1 ≠ None →
          files (save_rename ml w1).2 !! path ml = files w !! path ml))
  ∧ (∀ data, faults w = [] → MarshalIndent ml = inr data →
       (save ml w).1 = None
       ∧ files (save ml w).2 !! path ml = Some data
       ∧ files (save ml w).2 !! (path ml +:+ ".tmp") = None
       ∧ files (save ml w).2
         = <[path ml := data]> (delete (path ml +:+ ".tmp")
                                  (<[path ml +:+ ".tmp" := data]> (files w)))).
Proof.
  split; [apply save_write_target|]. split; [|split].
  - unfold save.
    pose proof (save_write_target ml w) as Hw.
    destruct (save_write ml w) as [[err|] w1] eqn:Hsw; [done|].
    destruct (save_write_tmp _ _ _ Hsw) as (data & Hd & Htmp).
    pose proof (save_rename_target ml w1 data Htmp) as Hr.
    destruct (save_rename ml w1) as [[err|] w2].
    + simpl in Hw. by rewrite Hr.
    + by exists data.
  - intros w1 Hsw. split; [by eapply save_write_tmp|].
    split; [unfold save; by rewrite Hsw|].
    destruct (save_write_tmp _ _ _ Hsw) as (data & Hd & Htmp).
    pose proof (save_rename_target ml w1 data Htmp) as Hr.
    pose proof (save_write_target ml w) as Hw. rewrite Hsw in Hw. simpl in Hw.
    destruct (save_rename ml w1) as [[err|] w2]; simpl; [|done].
    intros _. by rewrite Hr.
  - intros data Hf Hd.
    destruct (save_succeeds ml w data Hf Hd) as [Hnone Hfiles].
    split; [done|]. rewrite Hfiles.
    split; [apply lookup_insert_eq|]. split; [|done].
    rewrite lookup_insert_ne by (intros E; by apply (tmpPath_ne (path ml))).
    apply lookup_delete_eq.
Qed.

(** *** Upsert *)

(** [json.Unmarshal] reads what the encoder wrote: a mail that [toJson]
    converts has an entry, with its [Uid] and its [Subject] as it comes
    through JSON. *)
Lemma toJson_entry (m : mail) (data : JSON) :
  toJson m = inr data →
  ∃ jm, Unmarshal_jsonMail data = inr jm
    ∧ entry m = Some jm
    ∧ jm_Uid jm = Uid m
    ∧ jm_Subject jm = jsonString (Subject m).
Proof.
  intros Hd. unfold entry. rewrite Hd. revert Hd. unfold toJson, Encode. simpl.
  destruct (Time_MarshalJSON (Date m)); [done|].
  intros [= <-]. simpl. by eexists.
Qed.

Lemma entry_toJson (m : mail) (jm : jsonMail) :
  entry m = Some jm →
  ∃ data, toJson m = inr data ∧ Unmarshal_jsonMail data = inr jm.
Proof.
  unfold entry. destruct (toJson m) as [err|data]; [done|].
  destruct (Unmarshal_jsonMail data) as [err|jm'] eqn:Hu; [done|].
  intros [= <-]. by exists data.
Qed.

Lemma entry_Uid (m : mail) (jm : jsonMail) :
  entry m = Some jm →
  jm_Uid jm = Uid m ∧ jm_Subject jm = jsonString (Subject m).
Proof.
  intros (data & Hd & Hu)%entry_toJson.
  destruct (toJson_entry m data Hd) as (jm' & Hu' & _ & HU & HS).
  rewrite Hu in Hu'. by injection Hu' as <-.
Qed.

Lemma entry_None (m : mail) :
  entry m = None → ∃ err, toJson m = inl err.
Proof.
  unfold entry. destruct (toJson m) as [err|data] eqn:Hd; [by exists err|].
  destruct (toJson_entry m data Hd) as (jm & -> & _). done.
Qed.



Lemma addMail_index (ml : mailList) (m : mail) (jm : jsonMail) (w : World) :
  entry m = Some jm →
  (addMail ml m w).1.2 = set_List (upsert jm (List ml)) ml.
Proof.
  intros (data & Hd & Hu)%entry_toJson.
  unfold addMail, upsert. rewrite Hd, Hu.
  destruct (list_find _ _) as [[i x]|]; by destruct (save _ _).
Qed.


(** A mail that cannot be converted changes neither the list nor any
    file. *)
Lemma addMail_not_converted (ml : mailList) (m : mail) (w : World) (err : error) :
  toJson m = inl err →
  addMail ml m w = (Some (Errorf "failed to convert mail to json" err), ml, w).
Proof. intros He. unfold addMail. by rewrite He. Qed.


Lemma upsert_uids (jm : jsonMail) (l : list jsonMail) :
  jm_Uid <$> upsert jm l
  = if decide (jm_Uid jm ∈ jm_Uid <$> l) then jm_Uid <$> l
    else (jm_Uid <$> l) ++ [jm_Uid jm].
Proof.
  unfold upsert.
  destruct (list_find _ _) as [[i x]|] eqn:Hfind.
  - apply list_find_Some in Hfind as (Hi & Hx & _).
    rewrite decide_True.
    + rewrite list_fmap_insert. apply list_insert_id.
      by rewrite list_lookup_fmap, Hi, <- Hx.
    + apply list_elem_of_fmap. exists x. split; [done|].
      by eapply list_elem_of_lookup_2.
  - apply list_find_None in Hfind.
    rewrite decide_False, fmap_app; [done|].
    intros (x & Hx & Hin)%list_elem_of_fmap.
    rewrite Forall_forall in Hfind. by apply (Hfind x).
Qed.

Lemma upsert_NoDup (jm : jsonMail) (l : list jsonMail) :
  NoDup (jm_Uid <$> l) → NoDup (jm_Uid <$> upsert jm l).
Proof.
  intros Hl. rewrite upsert_uids. case_decide; [done|].
  apply NoDup_app. split; [done|]. split; [|apply NoDup_singleton].
  intros x Hx ->%list_elem_of_singleton. done.
Qed.



(** The index after one turn of the receiving loop. *)
Lemma receive_index (st : received) (m : mail) :
  index (receive st m)
  = match Error m, entry m with
    | None, Some jm => set_List (upsert jm (List (index st))) (index st)
    | _, _ => index st
    end.
Proof.
  unfold receive. destruct (Error m) as [e|]; [done|].
  destruct (entry m) as [jm|] eqn:He.
  - pose proof (addMail_index (index st) m jm (world st) He) as Ha.
    destruct (addMail (index st) m (world st)) as [[[err|] ml] w]; simpl in *; done.
  - destruct (entry_None m He) as [err Herr].
    by rewrite (addMail_not_converted _ _ _ _ Herr).
Qed.









End Index.

(** ** Properties of the text handler *)

Section TextHandler.

Lemma append_inj_l (a x y : string) : a +:+ x = a +:+ y → x = y.
Proof. induction a as [|c a IH]; simpl; [done|]. intros [= H]. by apply IH. Qed.

Lemma txt_ne_html (dir base : string) :
  dir +:+ "/" +:+ base +:+ ".txt" ≠ dir +:+ "/" +:+ base +:+ ".html".
Proof. intros H. by do 3 apply append_inj_l in H. Qed.

Lemma log_Println_files (line : string) (w : World) :
  files (log_Println line w) = files w
  ∧ faults (log_Println line w) = faults w
  ∧ dirs (log_Println line w) = dirs w.
Proof. done. Qed.

(** With every write succeeding, the loop over the body parts returns no
    error and leaves the files of [partsWritten]. *)
Lemma writeParts_no_faults (dir base : string) (i : nat) (bodies : list bytes)
    (w : World) :
  faults w = [] →
  ∃ w', writeParts dir base i bodies w = (None, w')
        ∧ faults w' = []
        ∧ dirs w' = dirs w
        ∧ files w' = partsWritten (dir +:+ "/" +:+ base +:+ ".txt")
                       (dir +:+ "/" +:+ base +:+ ".html") bodies (files w).
Proof.
  revert i w. induction bodies as [|body bodies IH]; intros i w Hf.
  - by exists w.
  - cbn [writeParts partsWritten foldl]. fold (sniffed body).
    unfold os.WriteFile, next_fault. rewrite Hf.
    destruct (decide (sniffed body = "text/plain"));
      [|destruct (decide (sniffed body = "text/html"))].
    + destruct (IH (S i) (set_files <[dir +:+ "/" +:+ base +:+ ".txt" := body]> w) Hf)
        as (w' & Hw & ? & ? & Hfiles). rewrite Hw. by exists w'.
    + destruct (IH (S i) (set_files <[dir +:+ "/" +:+ base +:+ ".html" := body]> w) Hf)
        as (w' & Hw & ? & ? & Hfiles). rewrite Hw. by exists w'.
    + match goal with |- context [log_Println ?line w] =>
        destruct (IH (S i) (log_Println line w) Hf) as (w' & Hw & ? & ? & Hfiles)
      end.
      rewrite Hw. by exists w'.
Qed.

(** What the text handler does for a mail with a body when every system
    call succeeds. *)
Lemma TextHandler_Handle_no_faults (username : string) (config : Config)
    (m : mail) (w : World) (dir : string) (body0 : bytes) (rest : list bytes) :
  Body m = body0 :: rest →
  getDirectoryName m "mail" username = Some dir →
  faults w = [] →
  let txt := dir +:+ "/" +:+ baseFilename m +:+ ".txt" in
  let html := dir +:+ "/" +:+ baseFilename m +:+ ".html" in
  let mt := mimeType (MimeType m) in
  ∃ w', TextHandler_Handle username config m w = Returned None w'
    ∧ dirs w' = {[dir]} ∪ dirs w
    ∧ files w' =
      if decide (mt = "text/plain") then <[txt := body0]> (files w)
      else if decide (mt = "text/html") then <[html := body0]> (files w)
      else if decide (mt = "multipart/alternative" ∨ mt = "multipart/mixed")
           then partsWritten txt html (Body m) (files w)
           else files w.
Proof.
  intros Hb Hdir Hf txt html mt.
  unfold TextHandler_Handle. rewrite Hb, Hdir.
  unfold os.MkdirAll, next_fault. rewrite Hf. fold mt.
  destruct (decide (mt = "text/plain"));
    [|destruct (decide (mt = "text/html"));
      [|destruct (decide (mt = "multipart/alternative" ∨ mt = "multipart/mixed"))]].
  - unfold os.WriteFile, next_fault. simpl. rewrite Hf. by eexists.
  - unfold os.WriteFile, next_fault. simpl. rewrite Hf. by eexists.
  - destruct (writeParts_no_faults dir (baseFilename m) 0 (body0 :: rest)
                (set_dirs (union {[dir]}) w) Hf) as (w' & Hw & _ & Hd & Hfiles).
    rewrite Hw. exists w'. by rewrite Hd, Hfiles.
  - by eexists.
Qed.

(** C8, as amended.  For a mail with at least one body, with every system
    call succeeding, the text handler makes the directory and returns no
    error; it writes the first body as it is to the [.txt] file when the
    declared type of the mail is [text/plain] and to the [.html] file when
    it is [text/html]; when it is [multipart/alternative] or
    [multipart/mixed] it goes through the bodies and writes each one to the
    [.txt] or the [.html] file by its own sniffed type, passing over those
    sniffed as neither; for any other declared type, the other multipart
    types among them, it writes no file.  For a mail without a body it does
    nothing. *)
Theorem text_handler_by_declared_type (username : string) (config : Config)
    (m : mail) (w : World) :
  (Body m = [] → TextHandler_Handle username config m w = Returned None w)
  ∧ (∀ dir body0 rest,
       Body m = body0 :: rest →
       getDirectoryName m "mail" username = Some dir →
       faults w = [] →
       let txt := dir +:+ "/" +:+ baseFilename m +:+ ".txt" in
       let html := dir +:+ "/" +:+ baseFilename m +:+ ".html" in
       let mt := mimeType (MimeType m) in
       ∃ w', TextHandler_Handle username config m w = Returned None w'
         ∧ dirs w' = {[dir]} ∪ dirs w
         ∧ files w' =
           if decide (mt = "text/plain") then <[txt := body0]> (files w)
           else if decide (mt = "text/html") then <[html := body0]> (files w)
           else if decide (mt = "multipart/alternative" ∨ mt = "multipart/mixed")
                then partsWritten txt html (Body m) (files w)
                else files w).
Proof.
  split.
  - intros Hb. unfold TextHandler_Handle. by rewrite Hb.
  - intros dir body0 rest. apply TextHandler_Handle_no_faults.
Qed.

Lemma partsWritten_cons (txt html : string) (body : bytes) (bodies : list bytes)
    (fs : gmap string bytes) :
  partsWritten txt html (body :: bodies) fs
  = partsWritten txt html bodies
      (if decide (sniffed body = "text/plain") then <[txt := body]> fs
       else if decide (sniffed body = "text/html") then <[html := body]> fs
       else fs).
Proof. done. Qed.

(** In the files left by the loop, the [.txt] file holds the last body
    sniffed as [text/plain], the [.html] file the last sniffed as
    [text/html]; without such a body the file is as it was. *)
Lemma partsWritten_lookup (txt html : string) (bodies : list bytes)
    (fs : gmap string bytes) :
  txt ≠ html →
  partsWritten txt html bodies fs !! txt
    = match last (filter (λ body, sniffed body = "text/plain") bodies) with
      | Some body => Some body
      | None => fs !! txt
      end
  ∧ partsWritten txt html bodies fs !! html
    = match last (filter (λ body, sniffed body = "text/html") bodies) with
      | Some body => Some body
      | None => fs !! html
      end.
Proof.
  intros Hne. revert fs. induction bodies as [|body bodies IH]; intros fs; [done|].
  rewrite partsWritten_cons, !filter_cons.
  destruct (decide (sniffed body = "text/plain")) as [Hp|Hp];
    [|destruct (decide (sniffed body = "text/html")) as [Hh|Hh]].
  - rewrite decide_False by congruence.
    destruct (IH (<[txt := body]> fs)) as [-> ->]. rewrite last_cons.
    rewrite lookup_insert_eq, lookup_insert_ne by done.
    split; [|done].
    by match goal with |- context [last ?l] => destruct (last l) end.
  - destruct (IH (<[html := body]> fs)) as [-> ->]. rewrite last_cons.
    rewrite lookup_insert_eq, lookup_insert_ne by done.
    split; [done|].
    by match goal with |- context [last ?l] => destruct (last l) end.
  - destruct (IH fs) as [-> ->]. done.
Qed.

(** C10.  For a mail of declared type [multipart/alternative] or
    [multipart/mixed], with every system call succeeding, the text handler
    writes every body sniffed as [text/plain] to the one file
    [<subject>-<date>-<uid>.txt] and every body sniffed as [text/html] to the
    one file [<subject>-<date>-<uid>.html]: afterwards each of the two files
    holds the last body of its sniffed type and nothing of the earlier
    ones, and is as it was when there is no such body. *)
Theorem text_handler_keeps_last_part (username : string) (config : Config)
    (m : mail) (w : World) (dir : string) :
  getDirectoryName m "mail" username = Some dir →
  faults w = [] →
  mimeType (MimeType m) = "multipart/alternative"
    ∨ mimeType (MimeType m) = "multipart/mixed" →
  ∃ w', TextHandler_Handle username config m w = Returned None w'
    ∧ files w' !! (dir +:+ "/" +:+ baseFilename m +:+ ".txt")
      = match last (filter (λ body, sniffed body = "text/plain") (Body m)) with
        | Some body => Some body
        | None => files w !! (dir +:+ "/" +:+ baseFilename m +:+ ".txt")
        end
    ∧ files w' !! (dir +:+ "/" +:+ baseFilename m +:+ ".html")
      = match last (filter (λ body, sniffed body = "text/html") (Body m)) with
        | Some body => Some body
        | None => files w !! (dir +:+ "/" +:+ baseFilename m +:+ ".html")
        end.
Proof.
  intros Hdir Hf Hmt.
  destruct (Body m) as [|body0 rest] eqn:HB.
  { exists w. unfold TextHandler_Handle. by rewrite HB. }
  destruct (TextHandler_Handle_no_faults username config m w dir body0 rest
              HB Hdir Hf) as (w' & Hh & _ & Hfiles).
  exists w'. split; [done|].
  rewrite decide_False, decide_False, decide_True in Hfiles by
    (done || (intros E; rewrite E in Hmt; by destruct Hmt)).
  rewrite Hfiles, HB.
  apply partsWritten_lookup, txt_ne_html.
Qed.

End TextHandler.

End Properties.

(** ** Further facts about strings *)

Section MoreStrings.

(** [strings.Map] leaves an ASCII prefix as it is when the mapping leaves
    ASCII runes as they are. *)
Lemma Map_ASCII_prefix (mapping : rune → rune) (a s : string) :
  (∀ r, 0 <= r < RuneSelf → mapping r = r) →
  isASCII a = true → Map mapping (a +:+ s) = a +:+ Map mapping s.
Proof.
  intros Hmap. unfold Map.
  induction a as [|c a IH]; simpl; [done|].
  intros [Hc Ha]%andb_prop.
  rewrite Hc. simpl.
  pose proof (byteZ_nonneg c) as H0.
  apply Z.ltb_lt in Hc.
  rewrite Hmap by lia. unfold RuneSelf in Hc.
  assert ((byteZ c <? 0) = false) as -> by (apply Z.ltb_ge; lia).
  unfold EncodeRune.
  assert (inRange 0 127 (byteZ c) = true) as ->.
  { unfold inRange. apply andb_true_intro. split; apply Z.leb_le; lia. }
  simpl. by rewrite ofZ_byteZ, IH.
Qed.

Lemma callable_ASCII (r : rune) :
  0 <= r < RuneSelf → (if r =? RuneError then -1 else r) = r.
Proof.
  intros Hr. unfold RuneSelf in Hr.
  assert ((r =? RuneError) = false) as -> by (apply Z.eqb_neq; unfold RuneError; lia).
  done.
Qed.

Lemma fixUtf_ASCII (s : string) : isASCII s = true → fixUtf s = s.
Proof. intros Hs. apply Map_ASCII; [apply callable_ASCII|done]. Qed.

(** [fixUtf] keeps ASCII text, whatever follows it, and drops a byte that
    can start no UTF-8 sequence as well as the character U+FFFD itself. *)
Theorem fixUtf_keeps_ASCII_drops_invalid :
  (∀ s, isASCII s = true → fixUtf s = s)
  ∧ (∀ a s, isASCII a = true → fixUtf (a +:+ s) = a +:+ fixUtf s)
  ∧ (∀ c s, strayByte c = true → fixUtf (String c s) = fixUtf s)
  ∧ (∀ s, fixUtf (EncodeRune RuneError +:+ s) = fixUtf s).
Proof.
  split; [apply fixUtf_ASCII|]. split; [|split].
  - intros a s Ha. apply Map_ASCII_prefix; [apply callable_ASCII|done].
  - intros c s Hc.
    destruct c as [[] [] [] [] [] [] [] []];
      vm_compute in Hc; try discriminate Hc; reflexivity.
  - intros s. reflexivity.
Qed.

Lemma Contains_app (c : ascii) (a b : string) :
  Contains c (a +:+ b) = Contains c a || Contains c b.
Proof. induction a as [|d a IH]; simpl; [done|]. by rewrite IH, orb_assoc. Qed.

Lemma sanitizeSubject_Contains (subject : string) (c : ascii) :
  c ∈ unsafeChars → Contains c (sanitizeSubject subject) = false.
Proof.
  intros Hc. unfold sanitizeSubject.
  induction (TrimSpace subject) as [|d t IH]; simpl; [done|].
  rewrite IH, orb_false_r. apply bool_decide_eq_false.
  case_decide as Hd.
  - intros <-. revert Hc. unfold unsafeChars.
    rewrite !elem_of_cons, elem_of_nil. intros H; repeat destruct H as [H|H]; done.
  - by intros ->.
Qed.

Lemma numeric_app (a b : string) : numeric (a +:+ b) = numeric a && numeric b.
Proof. induction a as [|c a IH]; simpl; [done|]. by rewrite IH, andb_assoc. Qed.

Lemma numeric_pretty_N_go (x : N) (s : string) :
  numeric s = true → numeric (pretty_N_go x s) = true.
Proof.
  revert s. induction (N.lt_wf_0 x) as [x _ IH]; intros s Hs.
  destruct (decide (x = 0)%N) as [->|Hx]; [done|].
  rewrite pretty_N_go_step by lia.
  apply IH; [apply N.div_lt; lia|].
  simpl. rewrite Hs, andb_true_r.
  unfold pretty_N_char. by repeat case_match.
Qed.

Lemma numeric_itoa (n : N) : numeric (itoa n) = true.
Proof.
  unfold itoa, pretty, pretty_N. case_decide; [done|].
  by apply numeric_pretty_N_go.
Qed.

Lemma numeric_appendInt (x : Z) (width : nat) : numeric (appendInt x width) = true.
Proof.
  unfold appendInt.
  assert (numeric (string_of_list_ascii
                     (replicate (width - len (pretty (Z.abs_N x))) "0"%char)
                   +:+ pretty (Z.abs_N x)) = true) as Hp.
  { rewrite numeric_app. apply andb_true_intro. split.
    - induction (width - len (pretty (Z.abs_N x)))%nat as [|k IH]; [done|].
      simpl. exact IH.
    - apply numeric_itoa. }
  destruct (x <? 0); [|done]. simpl. exact Hp.
Qed.

Lemma numeric_Contains (c : ascii) (s : string) :
  numeric s = true → c ≠ "-"%char → inRange 0x30 0x39 (byteZ c) = false →
  Contains c s = false.
Proof.
  intros Hs Hdash Hdigit.
  induction s as [|d s IH]; simpl in *; [done|].
  apply andb_prop in Hs as [Hd Hs]. rewrite (IH Hs), orb_false_r.
  apply bool_decide_eq_false. intros ->.
  apply orb_prop in Hd as [Hd%bool_decide_eq_true|Hd]; congruence.
Qed.

(** [sanitizeSubject] leaves none of the characters of its class. *)
Theorem sanitizeSubject_safe (subject : string) (c : ascii) :
  c ∈ unsafeChars → Contains c (sanitizeSubject subject) = false.
Proof. apply sanitizeSubject_Contains. Qed.

(** The file name the PDF and the text handler build from a mail holds no
    slash and none of the other characters [sanitizeSubject] replaces,
    whatever the subject. *)
Theorem baseFilename_safe (m : mail) (c : ascii) :
  c ∈ unsafeChars → Contains c (baseFilename m) = false.
Proof.
  intros Hc. unfold baseFilename, formatDate.
  assert (c ≠ "-"%char ∧ inRange 0x30 0x39 (byteZ c) = false) as [Hdash Hdigit].
  { revert Hc. unfold unsafeChars.
    rewrite !elem_of_cons, elem_of_nil.
    intros H; repeat destruct H as [H|H]; subst; done. }
  rewrite !Contains_app, (sanitizeSubject_Contains _ _ Hc).
  rewrite !(numeric_Contains c) by
    (done || apply numeric_appendInt || apply numeric_itoa).
  done.
Qed.

Lemma Split_first_app (sep : ascii) (t rest : string) :
  Split_first sep (t +:+ String sep rest) = Split_first sep t.
Proof.
  induction t as [|c t IH]; simpl.
  - by rewrite decide_True.
  - case_decide; [done|]. by rewrite IH.
Qed.

(** [mimeType] does not see what follows the first semicolon: the
    parameters of a content type never change how it is read. *)
Theorem mimeType_ignores_parameters (t params : string) :
  mimeType (t +:+ ";" +:+ params) = mimeType t.
Proof.
  unfold mimeType. change (";" +:+ params) with (String ";" params).
  by rewrite Split_first_app.
Qed.

End MoreStrings.

(** ** Further properties of the mail parser *)

Section MoreParser.

Context {collab : Collaborators}.

Lemma fetchParts_bodies (uid : N) (ps : list nextPart) (st st' : locals) :
  fetchParts uid ps st = inl st' →
  bodies st' = bodies st ++ inlineBodies ps.
Proof.
  revert st. induction ps as [|[p|err] ps IH]; intros st; simpl.
  - intros [= ->]. by rewrite app_nil_r.
  - destruct p as [[|[err|filename]] [body|err']]; unfold fetchPart; simpl; try done.
    + intros ->%IH. simpl. by rewrite <- app_assoc.
    + case_decide; [|done]. intros ->%IH. done.
    + destruct (decide (filename = "")); simpl; intros ->%IH; done.
  - case_decide; [|done]. intros [= ->]. by rewrite app_nil_r.
Qed.

Lemma named_bodies (uid c : N) (aps : list (string * bytes)) :
  att_Body <$> named uid c aps = snd <$> aps.
Proof.
  revert c. induction aps as [|[f b] aps IH]; intros c; [done|].
  simpl. by rewrite IH.
Qed.

(** In a mail whose parse succeeds, [Body] holds the contents of the
    inline parts that were read, in the order of the message, and the
    attachments hold the contents of the attachment parts, in their order. *)
Theorem parsed_mail_contents (message : Message) (mailReader : Reader)
    (m : mail) (r : option Reader) :
  GetBody message = Some (CreateOk mailReader) →
  fetchMessage message = Some (m, r) →
  Error m = None →
  Body m = inlineBodies (parts mailReader)
  ∧ att_Body <$> Attachments m = snd <$> declared (parts mailReader).
Proof.
  intros HB Hm He.
  destruct (fetchMessage_CreateOk message mailReader HB)
    as (m' & Hm' & _ & _ & He' & Hst & _).
  rewrite Hm in Hm'. injection Hm' as <- _.
  destruct (fetchParts _ _ _) as [st|err] eqn:Hps; [|congruence].
  destruct (Hst st eq_refl) as [Hb Ha].
  split.
  - rewrite Hb. by apply fetchParts_bodies in Hps.
  - rewrite Ha. apply fetchParts_attachments in Hps. rewrite Hps. simpl.
    apply named_bodies.
Qed.

(** The mail made of a message whose body section parses into a reader,
    field by field. *)
Lemma fetchMessage_CreateOk_eq (message : Message) (mailReader : Reader) :
  GetBody message = Some (CreateOk mailReader) →
  fetchMessage message =
  Some (let e := msg_Envelope message in
        let mt := declaredType message (ContentType mailReader) in
        match fetchParts (msg_Uid message) (parts mailReader)
                (mkLocals [] [] counter.CreateCounter) with
        | inl st =>
          mkMail (msg_Uid message) (env_MessageId e) (env_Subject e) (env_From e)
            (env_Date e) (bodies st) (attachments st) mt
            (MIME_String ∘ Detect <$> filter (λ body, 0 < len body)%nat (bodies st))
            (MIME_String ∘ Detect <$>
               filter (λ body, 0 < len body)%nat (att_Body <$> attachments st))
            None
        | inr err =>
          mkMail (msg_Uid message) (env_MessageId e) (env_Subject e) (env_From e)
            (env_Date e) [] [] mt [] [] (Some err)
        end,
        Some mailReader).
Proof.
  intros HB. unfold fetchMessage. rewrite HB. unfold fetchBody, declaredType.
  destruct (ContentType mailReader) as [e|ct], (msg_BodyStructure message) as [bs|];
    simpl; destruct (fetchParts _ _ _) as [st|err];
    by rewrite detectAttachments_spec, detectBodies_spec.
Qed.

(** A mail with its [Error] set has no content: what was read before the
    failure is not kept, and nothing is sniffed. *)
Theorem failed_mail_has_no_content (message : Message) (m : mail)
    (r : option Reader) :
  fetchMessage message = Some (m, r) →
  Error m ≠ None →
  Body m = [] ∧ Attachments m = []
  ∧ MultipartMimeType m = [] ∧ AttachmentMimeType m = [].
Proof.
  destruct (GetBody message) as [[mailReader|err mailReader]|] eqn:HB.
  - rewrite (fetchMessage_CreateOk_eq _ _ HB). simpl.
    destruct (fetchParts _ _ _) as [st|err]; intros [= <- _]; simpl; done.
  - unfold fetchMessage. rewrite HB. intros [= <- _] _.
    by destruct (msg_BodyStructure message).
  - unfold fetchMessage. by rewrite HB.
Qed.

(** Every mail sent on [mailsChan], with its [Error] set or not, carries
    the identifier and the envelope of its message. *)
Theorem fetched_mail_metadata (message : Message) (m : mail) (r : option Reader) :
  fetchMessage message = Some (m, r) →
  Uid m = msg_Uid message
  ∧ MessageID m = env_MessageId (msg_Envelope message)
  ∧ Subject m = env_Subject (msg_Envelope message)
  ∧ From m = env_From (msg_Envelope message)
  ∧ Date m = env_Date (msg_Envelope message).
Proof.
  destruct (GetBody message) as [[mailReader|err mailReader]|] eqn:HB.
  - rewrite (fetchMessage_CreateOk_eq _ _ HB). simpl.
    destruct (fetchParts _ _ _) as [st|err]; intros [= <- _]; simpl; done.
  - unfold fetchMessage. rewrite HB. intros [= <- _].
    by destruct (msg_BodyStructure message).
  - unfold fetchMessage. by rewrite HB.
Qed.

(** The [MimeType] of a mail is the content type of the header of its body
    section when that can be read, and else the type of the body structure,
    if the message has one: also when the parts cannot be read, and, from
    the body structure alone, when the body section is no mail. *)
Theorem declared_type_of_mail (message : Message) (m : mail) (r : option Reader) :
  fetchMessage message = Some (m, r) →
  (∀ mailReader, GetBody message = Some (CreateOk mailReader) →
     MimeType m = declaredType message (ContentType mailReader))
  ∧ (∀ err mailReader, GetBody message = Some (CreateErr err mailReader) →
       MimeType m = declaredType message (inl err)).
Proof.
  intros Hm. split.
  - intros mailReader HB.
    rewrite (fetchMessage_CreateOk_eq _ _ HB) in Hm. simpl in Hm.
    destruct (fetchParts _ _ _) as [st|err]; injection Hm as <- _; done.
  - intros err mailReader HB. unfold fetchMessage in Hm. rewrite HB in Hm.
    injection Hm as <- _.
    unfold declaredType. by destruct (msg_BodyStructure message).
Qed.

(** An error of [NextPart] ends the walk through the parts, and what
    follows is not read: [io.EOF], or an error with the text
    "multipart: NextPart: EOF", ends it well, with the parts read so far; any
    other error is returned, as is an error of [header.Filename()] on an
    attachment part, and becomes the [Error] of the mail. *)
Theorem NextPart_errors (message : Message) (mailReader : Reader)
    (pre : list Part) (rest : list nextPart) (st : locals) (err : error) :
  GetBody message = Some (CreateOk mailReader) →
  fetchParts (msg_Uid message) (NextOk <$> pre)
    (mkLocals [] [] counter.CreateCounter) = inl st →
  (parts mailReader = (NextOk <$> pre) ++ NextErr err :: rest →
   ∃ m, fetchMessage message = Some (m, Some mailReader)
     ∧ (endOfParts err →
          Error m = None ∧ Body m = bodies st ∧ Attachments m = attachments st)
     ∧ (¬ endOfParts err → Error m = Some err))
  ∧ (∀ body,
       parts mailReader
       = (NextOk <$> pre) ++ NextOk (mkPart (AttachmentHeader (inl err)) body) :: rest →
       ∃ m, fetchMessage message = Some (m, Some mailReader)
         ∧ Error m = Some err).
Proof.
  intros HB Hpre. split.
  - intros Hps.
    rewrite (fetchMessage_CreateOk_eq _ _ HB), Hps, (fetchParts_app _ _ _ _ _ Hpre).
    eexists. split; [reflexivity|].
    simpl. unfold endOfParts. case_decide; simpl; split; intros; done.
  - intros body Hps.
    rewrite (fetchMessage_CreateOk_eq _ _ HB), Hps, (fetchParts_app _ _ _ _ _ Hpre).
    eexists. split; reflexivity.
Qed.

(** A mail reader that does not close ends the process, after its mail was
    sent: the mails of the messages before it and its own are on
    [mailsChan], no later one is, and [mailsChan] is not closed. *)
Theorem failing_Close_ends_the_run (pre rest : list Message) (message : Message)
    (m : mail) (mailReader : Reader) (err : error) :
  Forall (λ message, fetchable message = true) pre →
  fetchMessage message = Some (m, Some mailReader) →
  Close mailReader = Some err →
  fetchMessages (pre ++ message :: rest) = (parsed pre ++ [m], Exits err)
  ∧ producer (pre ++ message :: rest) = (Send <$> (parsed pre ++ [m]), Some err).
Proof.
  intros Hpre Hm Hc.
  assert (fetchMessages (pre ++ message :: rest) = (parsed pre ++ [m], Exits err)) as Hf.
  { rewrite (fetchMessages_fetchable _ _ Hpre). simpl. rewrite Hm. simpl.
    by rewrite Hc. }
  split; [done|]. unfold producer. by rewrite Hf.
Qed.

(** The file name an attachment declared is kept, but for what [fixUtf]
    drops and for the slashes, which become dashes: an ASCII name is kept
    with its slashes replaced, an ASCII name without a slash as it is. *)
Theorem declared_filename_kept (message : Message) (mailReader : Reader)
    (m : mail) (r : option Reader) (i : nat) (filename : string) (body : bytes) :
  GetBody message = Some (CreateOk mailReader) →
  fetchMessage message = Some (m, r) →
  Error m = None →
  declared (parts mailReader) !! i = Some (filename, body) →
  filename ≠ "" →
  ∃ a, Attachments m !! i = Some a
    ∧ Filename a = ReplaceByte "/" "-" (fixUtf filename)
    ∧ (isASCII filename = true → Filename a = ReplaceByte "/" "-" filename)
    ∧ (plain filename = true → Filename a = filename).
Proof.
  intros HB Hm He Hi Hne.
  rewrite (fetchMessage_CreateOk_eq _ _ HB) in Hm. simpl in Hm.
  destruct (fetchParts _ _ _) as [st|err] eqn:Hps; injection Hm as <- _; [|done].
  apply fetchParts_attachments in Hps. simpl in Hps. simpl.
  rewrite Hps, (named_lookup _ _ _ _ _ _ Hi), decide_False by done.
  eexists. split; [reflexivity|]. simpl. split; [done|]. split.
  - intros Ha. by rewrite fixUtf_ASCII.
  - intros Hp. by rewrite (fixUtf_plain _ Hp), (ReplaceByte_plain _ Hp).
Qed.

End MoreParser.

(** ** Further properties of the metadata index *)

Section MoreIndex.

Context {collab : Collaborators}.

(** What the system calls leave alone. *)
Lemma WriteFile_frame (name : string) (data : bytes) (w : World) :
  (∀ p, p ≠ name → files (os.WriteFile name data w).2 !! p = files w !! p)
  ∧ dirs (os.WriteFile name data w).2 = dirs w.
Proof.
  unfold os.WriteFile, next_fault.
  destruct (faults w) as [|[|e [part|]] fs]; simpl; (split; [|done]);
    intros p Hp; rewrite ?lookup_insert_ne by done; done.
Qed.

Lemma MkdirAll_frame (dir : string) (w : World) :
  files (os.MkdirAll dir w).2 = files w.
Proof.
  unfold os.MkdirAll, next_fault. by destruct (faults w) as [|[|e part] fs].
Qed.

Lemma Rename_frame (oldpath newpath : string) (w : World) :
  (∀ p, p ≠ oldpath → p ≠ newpath →
     files (os.Rename oldpath newpath w).2 !! p = files w !! p)
  ∧ dirs (os.Rename oldpath newpath w).2 = dirs w
  ∧ ((os.Rename oldpath newpath w).1 = None → oldpath ≠ newpath →
     files (os.Rename oldpath newpath w).2 !! oldpath = None).
Proof.
  unfold os.Rename, next_fault.
  destruct (faults w) as [|[|e part] fs]; simpl;
    try destruct (files w !! oldpath); simpl;
    (split; [|split; [done|]]); try done;
    try (intros p Ho Hn; by rewrite lookup_insert_ne, lookup_delete_ne);
    intros _ Hne; by rewrite lookup_insert_ne, lookup_delete_eq.
Qed.

Lemma Remove_frame (name : string) (w : World) :
  (∀ p, p ≠ name → files (os.Remove name w).2 !! p = files w !! p)
  ∧ dirs (os.Remove name w).2 = dirs w.
Proof.
  unfold os.Remove, next_fault.
  destruct (faults w) as [|[|e part] fs]; simpl; (split; [|done]);
    intros p Hp; rewrite ?lookup_delete_ne by done; done.
Qed.

Lemma upsert_lookup_other (jm e : jsonMail) (l : list jsonMail) (i : nat) :
  l !! i = Some e → jm_Uid e ≠ jm_Uid jm → upsert jm l !! i = Some e.
Proof.
  intros Hi Hne. unfold upsert.
  destruct (list_find _ _) as [[i' x]|] eqn:Hfind.
  - apply list_find_Some in Hfind as (Hi' & Hx & _).
    rewrite list_lookup_insert_ne; [done|].
    intros ->. rewrite Hi in Hi'. by injection Hi' as ->.
  - by apply lookup_app_l_Some.
Qed.

Lemma upsert_elem_of (jm : jsonMail) (l : list jsonMail) : jm ∈ upsert jm l.
Proof.
  unfold upsert.
  destruct (list_find _ _) as [[i' x]|] eqn:Hfind.
  - apply list_find_Some in Hfind as (Hi' & _).
    apply list_elem_of_lookup. exists i'.
    apply list_lookup_insert_eq. by eapply lookup_lt_Some.
  - apply elem_of_app. right. apply list_elem_of_here.
Qed.

(** Whatever becomes of the save, [addMail] leaves the account, the vendor,
    the server and the path of the index as they are, leaves every entry of
    another [Uid] where it is, and keeps a list without two entries of one
    [Uid] that way.  For a mail that [toJson] converts the list then has
    the entry [json.Unmarshal] reads, with the [Uid] of the mail; a mail
    that it does not convert changes neither the index nor any file. *)
Theorem addMail_keeps_the_index (ml : mailList) (m : mail) (w : World) :
  let ml' := (addMail ml m w).1.2 in
  (Email ml' = Email ml ∧ Vendor ml' = Vendor ml
   ∧ Server ml' = Server ml ∧ path ml' = path ml)
  ∧ (∀ data, toJson m = inr data →
       ∃ jm, Unmarshal_jsonMail data = inr jm
         ∧ jm_Uid jm = Uid m
         ∧ jm ∈ List ml')
  ∧ (∀ err, toJson m = inl err →
       addMail ml m w
       = (Some (Errorf "failed to convert mail to json" err), ml, w))
  ∧ (∀ i e, List ml !! i = Some e → jm_Uid e ≠ Uid m → List ml' !! i = Some e)
  ∧ (NoDup (jm_Uid <$> List ml) → NoDup (jm_Uid <$> List ml')).
Proof.
  intros ml'. unfold ml'.
  destruct (entry m) as [jm|] eqn:He.
  - rewrite (addMail_index _ _ jm _ He). simpl.
    destruct (entry_Uid m jm He) as [HU _].
    split; [done|]. split; [|split; [|split]].
    + intros data Hd.
      destruct (toJson_entry m data Hd) as (jm' & Hu & He' & _).
      rewrite He in He'. injection He' as <-.
      exists jm. split; [done|]. split; [done|]. apply upsert_elem_of.
    + intros err Herr. destruct (entry_toJson m jm He) as (data & Hd & _).
      congruence.
    + intros i e Hi Hne. apply upsert_lookup_other; [done|]. by rewrite HU.
    + apply upsert_NoDup.
  - destruct (entry_None m He) as [err Herr].
    rewrite (addMail_not_converted ml m w err Herr). simpl.
    split; [done|]. split; [|split; [|done]].
    + intros data Hd. congruence.
    + intros err' Herr'. congruence.
Qed.

(** [save] touches no file but the target and the temporary file, makes
    no directory, and when it returns no error the temporary file is
    gone. *)
Theorem save_touches_its_two_files (ml : mailList) (w : World) :
  (∀ p, p ≠ path ml → p ≠ path ml +:+ ".tmp" →
     files (save ml w).2 !! p = files w !! p)
  ∧ dirs (save ml w).2 = dirs w
  ∧ ((save ml w).1 = None → files (save ml w).2 !! (path ml +:+ ".tmp") = None).
Proof.
  pose proof (tmpPath_ne (path ml)) as Htmp.
  unfold save, save_write, save_rename.
  destruct (MarshalIndent ml) as [err|data]; [done|].
  destruct (WriteFile_frame (path ml +:+ ".tmp") data w) as [Hw1 Hd1].
  destruct (os.WriteFile (path ml +:+ ".tmp") data w) as [[e1|] w1]; simpl in *.
  { split; [|done]. intros p _ Ht. by apply Hw1. }
  destruct (Rename_frame (path ml +:+ ".tmp") (path ml) w1) as (Hw2 & Hd2 & Hok).
  destruct (os.Rename (path ml +:+ ".tmp") (path ml) w1) as [[e2|] w2]; simpl in *.
  - destruct (Remove_frame (path ml +:+ ".tmp") w2) as [Hw3 Hd3].
    split; [|split; [congruence|done]].
    intros p Hp Ht. rewrite Hw3, Hw2, Hw1 by done. done.
  - split; [|split; [congruence|]].
    + intros p Hp Ht. rewrite Hw2, Hw1 by done. done.
    + intros _. by apply Hok.
Qed.

Lemma receive_mails (st : received) (m : mail) :
  mails (receive st m) = mails st ++ [m].
Proof.
  unfold receive. destruct (Error m); [done|].
  by destruct (addMail (index st) m (world st)) as [[[err|] ml] w].
Qed.

Lemma receive_index_unchanged (st : received) (m : mail) :
  Error m ≠ None ∨ (∃ err, toJson m = inl err) →
  index (receive st m) = index st.
Proof.
  rewrite receive_index. intros [H|[err H]]; destruct (Error m); try done.
  unfold entry. by rewrite H.
Qed.

(** The consumer keeps every mail it receives, in order, for the handlers,
    and its index takes every mail without [Error] that [addMail] makes an
    entry of, one after the other, whether the saves to disk succeed or
    not; mails with an [Error] and mails that [toJson] does not convert
    leave the index as it is. *)
Theorem consumer_keeps_every_mail (sent : list mail) (st : received) :
  mails (consumer sent st) = mails st ++ sent
  ∧ index (consumer sent st)
    = set_List (foldl (λ l jm, upsert jm l) (List (index st))
                  (omap entry (filter (λ m, Error m = None) sent)))
        (index st)
  ∧ (Forall (λ m, Error m ≠ None ∨ ∃ err, toJson m = inl err) sent →
     index (consumer sent st) = index st).
Proof.
  split; [|split].
  - revert st. induction sent as [|m sent IH]; intros st; simpl.
    + by rewrite app_nil_r.
    + by rewrite IH, receive_mails, <- app_assoc.
  - revert st. induction sent as [|m sent IH]; intros st; simpl.
    + by destruct (index st).
    + rewrite IH, receive_index, filter_cons.
      destruct (Error m) as [e|] eqn:HE.
      * by rewrite decide_False.
      * rewrite decide_True by done. csimpl. by destruct (entry m).
  - intros Hall. revert st.
    induction Hall as [|m sent Hm _ IH]; intros st; simpl; [done|].
    by rewrite IH, receive_index_unchanged.
Qed.

End MoreIndex.

(** ** Further properties of the handlers *)

Section MoreHandlers.

Context {collab : Collaborators}.

Lemma getDirectoryName_Some (m : mail) (root username : string) :
  From m ≠ [] → ∃ dir, getDirectoryName m root username = Some dir.
Proof. unfold getDirectoryName. destruct (From m); [done|eauto]. Qed.

(** *** The attachment handler *)

Lemma writeAttachments_frame (config : Config) (dir : string)
    (atts : list attachment) (w : World) (p : string) :
  (∀ a, a ∈ matching config atts → p ≠ dir +:+ "/" +:+ Filename a) →
  files (writeAttachments config dir atts w).2 !! p = files w !! p.
Proof.
  revert w. induction atts as [|a atts IH]; intros w Hp; [done|].
  unfold matching in Hp. rewrite filter_cons in Hp. simpl.
  destruct (Find (Attachments_Mimetypes config) (Mimetype a)) eqn:Hfind; simpl.
  - rewrite decide_True in Hp by done.
    pose proof (MkdirAll_frame dir w) as Hm.
    destruct (os.MkdirAll dir w) as [[e|] w1]; simpl in Hm.
    { simpl. by rewrite Hm. }
    destruct (WriteFile_frame (dir +:+ "/" +:+ Filename a) (att_Body a) w1) as [Hw _].
    specialize (Hw p (Hp a ltac:(left))).
    destruct (os.WriteFile _ _ w1) as [[e|] w2]; simpl in Hw.
    + case_decide; simpl.
      * rewrite IH; [simpl; by rewrite Hw, Hm|]. intros b Hb. apply Hp. by right.
      * by rewrite Hw, Hm.
    + rewrite IH; [by rewrite Hw, Hm|]. intros b Hb. apply Hp. by right.
  - rewrite decide_False in Hp by done. by apply IH.
Qed.

Lemma writeAttachments_no_faults (config : Config) (dir : string)
    (atts : list attachment) (w : World) :
  faults w = [] →
  ∃ w', writeAttachments config dir atts w = (None, w')
        ∧ faults w' = []
        ∧ files w' = attachmentsWritten dir (matching config atts) (files w).
Proof.
  revert w. induction atts as [|a atts IH]; intros w Hf.
  - by exists w.
  - unfold matching. rewrite filter_cons. simpl.
    destruct (Find (Attachments_Mimetypes config) (Mimetype a)) eqn:Hfind; simpl.
    + unfold os.MkdirAll, os.WriteFile, next_fault. rewrite Hf. simpl. rewrite Hf.
      destruct (IH (set_files <[dir +:+ "/" +:+ Filename a := att_Body a]>
                      (set_dirs (union {[dir]}) w)) Hf) as (w' & Hw & ? & Hfiles).
      rewrite Hw. by exists w'.
    + by apply IH.
Qed.

Lemma attachmentsWritten_last (dir : string) (pre post : list attachment)
    (a : attachment) (fs : gmap string bytes) :
  Forall (λ b, Filename b ≠ Filename a) post →
  attachmentsWritten dir (pre ++ a :: post) fs !! (dir +:+ "/" +:+ Filename a)
  = Some (att_Body a).
Proof.
  intros Hpost. unfold attachmentsWritten. rewrite foldl_app. simpl.
  generalize (foldl (λ fs a, <[dir +:+ "/" +:+ Filename a := att_Body a]> fs) fs pre).
  intros fs'.
  assert (∀ g : gmap string bytes,
            g !! (dir +:+ "/" +:+ Filename a) = Some (att_Body a) →
            foldl (λ fs a, <[dir +:+ "/" +:+ Filename a := att_Body a]> fs) g post
              !! (dir +:+ "/" +:+ Filename a) = Some (att_Body a)) as H.
  { induction Hpost as [|b post Hb _ IH]; intros g Hg; [done|].
    simpl. apply IH. rewrite lookup_insert_ne; [done|].
    intros E. by do 2 apply append_inj_l in E. }
  apply H, lookup_insert_eq.
Qed.

(** The attachment handler writes no file but those of the attachments
    whose sniffed type [Find] accepts, whatever fails.  With every system
    call succeeding it returns no error and has written each of them under
    its file name in the directory, in order: an attachment is on disk with
    its content unless a later accepted one has the same file name. *)
Theorem attachment_handler_saves_accepted (username : string) (config : Config)
    (m : mail) (w : World) (dir : string) :
  getDirectoryName m "attachment" username = Some dir →
  let o := AttachmentHandler_Handle username config m w in
  (∀ p, (∀ a, a ∈ matching config (Attachments m) → p ≠ dir +:+ "/" +:+ Filename a) →
        files (world_of o) !! p = files w !! p)
  ∧ (faults w = [] →
     ∃ w', o = Returned None w'
       ∧ files w' = attachmentsWritten dir (matching config (Attachments m)) (files w)
       ∧ ∀ pre a post,
           matching config (Attachments m) = pre ++ a :: post →
           Forall (λ b, Filename b ≠ Filename a) post →
           files w' !! (dir +:+ "/" +:+ Filename a) = Some (att_Body a)).
Proof.
  intros Hdir o. unfold o, AttachmentHandler_Handle. rewrite Hdir. split.
  - intros p Hp.
    pose proof (writeAttachments_frame config dir (Attachments m) w p Hp) as H.
    by destruct (writeAttachments config dir (Attachments m) w).
  - intros Hf.
    destruct (writeAttachments_no_faults config dir (Attachments m) w Hf)
      as (w' & Hw & _ & Hfiles).
    rewrite Hw. exists w'. split; [done|]. split; [done|].
    intros pre a post Hm Hpost. rewrite Hfiles, Hm.
    by apply attachmentsWritten_last.
Qed.

(** *** The PDF handler *)

Lemma generatePdf_spec (m : mail) :
  generatePdf m
  = match NewPDFGenerator with
    | Some err => inl err
    | None =>
      match htmlBodies m with
      | [] => inr None
      | _ => wkhtmltopdf (htmlBodies m)
      end
    end.
Proof.
  unfold generatePdf, htmlBodies. destruct NewPDFGenerator; [done|].
  destruct (filter _ _); [done|]. by destruct (wkhtmltopdf _).
Qed.

(** For a mail whose subject [Find] accepts, the PDF handler first makes
    the generator, and returns the error if that fails, whatever the mail
    holds.  Else, without a body that is HTML by [Is], it does nothing; with
    such bodies it hands exactly those, in order, to the generator.  An
    error of the generator is returned, and nothing is written; so it is
    when the generator returns no bytes.  Else, with every system call
    succeeding, the PDF is written as [<subject>-<date>-<uid>.pdf] in the
    directory of the mail. *)
Theorem pdf_handler_renders_html_bodies (username : string) (config : Config)
    (m : mail) (w : World) :
  Find (Mails_Subjects config) (Subject m) = true →
  match NewPDFGenerator with
  | Some err =>
    PDFHandler_Handle username config m w
    = Returned (Some (Errorf "failed to generate PDF" err)) w
  | None =>
    (htmlBodies m = [] → PDFHandler_Handle username config m w = Returned None w)
    ∧ (htmlBodies m ≠ [] →
       match wkhtmltopdf (htmlBodies m) with
       | inl err =>
         PDFHandler_Handle username config m w
         = Returned (Some (Errorf "failed to generate PDF" err)) w
       | inr None => PDFHandler_Handle username config m w = Returned None w
       | inr (Some pdf) =>
         ∀ dir,
           getDirectoryName m "mail" username = Some dir →
           faults w = [] →
           ∃ w', PDFHandler_Handle username config m w = Returned None w'
             ∧ dirs w' = {[dir]} ∪ dirs w
             ∧ files w'
               = <[dir +:+ "/" +:+ baseFilename m +:+ ".pdf" := pdf]> (files w)
       end)
  end.
Proof.
  intros Hfind. unfold PDFHandler_Handle.
  rewrite Hfind, generatePdf_spec. simpl.
  destruct NewPDFGenerator as [err|]; [done|].
  split.
  - by intros ->.
  - intros Hhtml.
    destruct (htmlBodies m) as [|b bs] eqn:Hb; [done|].
    destruct (wkhtmltopdf (b :: bs)) as [err|[pdf|]]; [done| |done].
    intros dir Hdir Hf. rewrite Hdir.
    unfold os.MkdirAll, os.WriteFile, next_fault. rewrite Hf. simpl.
    rewrite Hf. by eexists.
Qed.

Lemma PDFHandler_frame (username : string) (config : Config) (m : mail)
    (w : World) (p : string) :
  (∀ dir, getDirectoryName m "mail" username = Some dir →
          p ≠ dir +:+ "/" +:+ baseFilename m +:+ ".pdf") →
  files (world_of (PDFHandler_Handle username config m w)) !! p = files w !! p.
Proof.
  intros Hp. unfold PDFHandler_Handle.
  destruct (Find _ _); simpl; [|done].
  destruct (generatePdf m) as [err|[pdf|]]; try done.
  destruct (getDirectoryName m "mail" username) as [dir|]; [|done].
  pose proof (MkdirAll_frame dir w) as Hm.
  destruct (os.MkdirAll dir w) as [[e|] w1]; simpl in Hm; simpl; [by rewrite Hm|].
  destruct (WriteFile_frame (dir +:+ "/" +:+ baseFilename m +:+ ".pdf") pdf w1) as [Hw _].
  specialize (Hw p (Hp dir eq_refl)).
  destruct (os.WriteFile _ _ w1) as [[e|] w2]; simpl in *; by rewrite Hw, Hm.
Qed.

(** *** The text handler *)

Lemma writeParts_frame (dir base : string) (i : nat) (bodies : list bytes)
    (w : World) (p : string) :
  p ≠ dir +:+ "/" +:+ base +:+ ".txt" →
  p ≠ dir +:+ "/" +:+ base +:+ ".html" →
  files (writeParts dir base i bodies w).2 !! p = files w !! p.
Proof.
  intros Ht Hh. revert i w. induction bodies as [|body bodies IH]; intros i w; [done|].
  simpl.
  destruct (decide (mimeType (MIME_String (Detect body)) = "text/plain")) as [Hp|Hp];
    [|destruct (decide (mimeType (MIME_String (Detect body)) = "text/html")) as [Hp'|Hp']].
  - destruct (WriteFile_frame (dir +:+ "/" +:+ base +:+ ".txt") body w) as [Hw _].
    specialize (Hw p Ht).
    destruct (os.WriteFile _ _ w) as [[err|] w1]; simpl in *; [done|].
    by rewrite IH.
  - destruct (WriteFile_frame (dir +:+ "/" +:+ base +:+ ".html") body w) as [Hw _].
    specialize (Hw p Hh).
    destruct (os.WriteFile _ _ w) as [[err|] w1]; simpl in *; [done|].
    by rewrite IH.
  - by rewrite IH.
Qed.

Lemma TextHandler_frame (username : string) (config : Config) (m : mail)
    (w : World) (p : string) :
  (∀ dir, getDirectoryName m "mail" username = Some dir →
          p ≠ dir +:+ "/" +:+ baseFilename m +:+ ".txt"
          ∧ p ≠ dir +:+ "/" +:+ baseFilename m +:+ ".html") →
  files (world_of (TextHandler_Handle username config m w)) !! p = files w !! p.
Proof.
  intros Hp. unfold TextHandler_Handle.
  destruct (Body m) as [|body0 rest]; [done|].
  destruct (getDirectoryName m "mail" username) as [dir|]; [|done].
  destruct (Hp dir eq_refl) as [Ht Hh].
  pose proof (MkdirAll_frame dir w) as Hm.
  destruct (os.MkdirAll dir w) as [[err|] w1]; simpl in Hm; [simpl; by rewrite Hm|].
  cbv zeta. case_decide; [|case_decide; [|case_decide]].
  - destruct (WriteFile_frame (dir +:+ "/" +:+ baseFilename m +:+ ".txt") body0 w1)
      as [Hw _]. specialize (Hw p Ht).
    destruct (os.WriteFile _ _ w1) as [[err|] w2]; simpl in *; by rewrite Hw, Hm.
  - destruct (WriteFile_frame (dir +:+ "/" +:+ baseFilename m +:+ ".html") body0 w1)
      as [Hw _]. specialize (Hw p Hh).
    destruct (os.WriteFile _ _ w1) as [[err|] w2]; simpl in *; by rewrite Hw, Hm.
  - pose proof (writeParts_frame dir (baseFilename m) 0 (body0 :: rest) w1 p Ht Hh) as Hw.
    destruct (writeParts dir (baseFilename m) 0 (body0 :: rest) w1) as [err w2].
    simpl in *. by rewrite Hw, Hm.
  - simpl. by rewrite Hm.
Qed.

(** *** All handlers *)

Lemma Handle_frame (username : string) (h : MailHandler) (config : Config)
    (m : mail) (w : World) (p : string) :
  h ∈ handlers username →
  p ∉ outputPaths username config m →
  files (world_of (Handle h config m w)) !! p = files w !! p.
Proof.
  intros Hh Hp. unfold outputPaths in Hp.
  unfold handlers in Hh. rewrite !elem_of_cons, elem_of_nil in Hh.
  destruct (getDirectoryName m "attachment" username) as [dA|] eqn:HA;
    destruct (getDirectoryName m "mail" username) as [dM|] eqn:HM.
  - rewrite elem_of_app, !elem_of_cons, elem_of_nil in Hp.
    destruct Hh as [->|[->|[->|[]]]]; simpl.
    + unfold AttachmentHandler_Handle. rewrite HA.
      pose proof (writeAttachments_frame config dA (Attachments m) w p) as H.
      destruct (writeAttachments config dA (Attachments m) w); simpl in *.
      apply H. intros a Ha ->. apply Hp. left.
      apply list_elem_of_fmap. by exists a.
    + apply PDFHandler_frame. intros dir. rewrite HM. intros [= <-] ->. tauto.
    + apply TextHandler_frame. intros dir. rewrite HM. intros [= <-].
      split; intros ->; tauto.
  - unfold getDirectoryName in HA, HM. by destruct (From m).
  - unfold getDirectoryName in HA, HM. by destruct (From m).
  - destruct Hh as [->|[->|[->|[]]]]; simpl.
    + unfold AttachmentHandler_Handle. by rewrite HA.
    + apply PDFHandler_frame. intros dir. by rewrite HM.
    + apply TextHandler_frame. intros dir. by rewrite HM.
Qed.

Lemma runHandlers_frame (username : string) (hs : list MailHandler)
    (config : Config) (m : mail) (w : World) (p : string) :
  hs ⊆ handlers username →
  p ∉ outputPaths username config m →
  files (world_of (runHandlers hs config m w)) !! p = files w !! p.
Proof.
  intros Hhs Hp. revert w. induction hs as [|h hs IH]; intros w; [done|].
  simpl.
  pose proof (Handle_frame username h config m w p
                ltac:(apply Hhs; left) Hp) as Hh.
  assert (hs ⊆ handlers username) as Hsub.
  { intros x Hx. apply Hhs. by right. }
  destruct (Handle h config m w) as [[err|] w1|w1]; simpl in *.
  - by rewrite (IH Hsub).
  - by rewrite (IH Hsub).
  - done.
Qed.

(** Whatever fails, the handlers of [main] write for a mail no file but
    these: the attachments [Find] accepts, under their file names in the
    attachment directory of the mail, and the [.pdf], the [.txt] and the
    [.html] file of the mail in its mail directory.  For a mail with its
    [Error] set they write none. *)
Theorem handlers_write_only_their_outputs (username : string) (config : Config)
    (m : mail) (w : World) (p : string) :
  (p ∉ outputPaths username config m ∨ Error m ≠ None) →
  files (world_of (processMail (handlers username) config m w)) !! p = files w !! p.
Proof.
  intros Hp. unfold processMail.
  destruct (Error m) as [err|]; [done|].
  destruct Hp as [Hp|Hp]; [|done].
  by apply (runHandlers_frame username).
Qed.

(** With a sender, no handler panics: each call returns. *)
Lemma Handle_returns (h : MailHandler) (config : Config) (m : mail) (w : World) :
  From m ≠ [] → ∃ err w', Handle h config m w = Returned err w'.
Proof.
  intros HF.
  destruct (getDirectoryName_Some m "attachment" "" HF) as [d0 _].
  destruct h as [username|username|username]; simpl.
  - unfold AttachmentHandler_Handle.
    destruct (getDirectoryName_Some m "attachment" username HF) as [dir ->].
    destruct (writeAttachments _ _ _ _); eauto.
  - unfold PDFHandler_Handle.
    destruct (Find _ _); simpl; [|eauto].
    destruct (generatePdf m) as [err|[pdf|]]; eauto.
    destruct (getDirectoryName_Some m "mail" username HF) as [dir ->].
    destruct (os.MkdirAll dir w) as [[err|] w1]; eauto.
    destruct (os.WriteFile _ _ w1) as [[err|] w2]; eauto.
  - unfold TextHandler_Handle.
    destruct (Body m) as [|body0 rest]; [eauto|].
    destruct (getDirectoryName_Some m "mail" username HF) as [dir ->].
    destruct (os.MkdirAll dir w) as [[err|] w1]; eauto.
    repeat case_decide;
      try (destruct (os.WriteFile _ _ w1) as [[err|] w2]; eauto);
      try (destruct (writeParts _ _ _ _ w1); eauto); eauto.
Qed.

Lemma fetchMessage_From (message : Message) (m : mail) (r : option Reader) :
  fetchMessage message = Some (m, r) → From m = env_From (msg_Envelope message).
Proof.
  destruct (GetBody message) as [[mailReader|err mailReader]|] eqn:HB.
  - rewrite (fetchMessage_CreateOk_eq _ _ HB). simpl.
    destruct (fetchParts _ _ _) as [st|err]; intros [= <- _]; simpl; done.
  - unfold fetchMessage. rewrite HB. intros [= <- _].
    by destruct (msg_BodyStructure message).
  - unfold fetchMessage. by rewrite HB.
Qed.

(** When every mail without [Error] has a sender, the loop that processes
    the messages runs to its end, whatever handlers it is given and whatever
    fails on the way: an error of a handler is logged and the loop goes on.
    So it does on the mails made of messages whose envelopes all have a
    sender. *)
Theorem processMails_runs_to_the_end (hs : list MailHandler) (config : Config) :
  (∀ ms w, Forall (λ m, Error m = None → From m ≠ []) ms →
           ∃ w', processMails hs config ms w = Returned tt w')
  ∧ (∀ messages w,
       Forall (λ message, env_From (msg_Envelope message) ≠ []) messages →
       ∃ w', processMails hs config (parsed messages) w = Returned tt w').
Proof.
  assert (∀ ms w, Forall (λ m, Error m = None → From m ≠ []) ms →
                  ∃ w', processMails hs config ms w = Returned tt w') as Hloop.
  { intros ms w Hall. revert w. induction Hall as [|m ms Hm _ IH]; intros w.
    - by exists w.
    - simpl.
      assert (∃ w1, processMail hs config m w = Returned tt w1) as [w1 ->].
      { unfold processMail. destruct (Error m) as [err|]; [eauto|].
        specialize (Hm eq_refl). clear IH.
        revert w. induction hs as [|h hs IHh]; intros w; [by exists w|].
        simpl. destruct (Handle_returns h config m w Hm) as (err & w' & ->).
        destruct err; apply IHh. }
      apply IH. }
  split; [done|].
  intros messages w Hall. apply Hloop.
  unfold parsed. induction Hall as [|message messages Hm _ IH]; [constructor|].
  simpl. destruct (fetchMessage message) as [[m r]|] eqn:Hfetch; simpl; [|done].
  constructor; [|done].
  intros _. by rewrite (fetchMessage_From _ _ _ Hfetch).
Qed.

End MoreHandlers.

(** ** Further properties: loading the index *)

Section MoreLoading.

Context {collab : Collaborators} {loader : Loader}.

Lemma ReadFile_frame (name : string) (w : World) :
  files (os_ReadFile name w).2 = files w ∧ dirs (os_ReadFile name w).2 = dirs w.
Proof.
  unfold os_ReadFile, next_fault.
  destruct (faults w) as [|[|e part] fs]; simpl; try done; by case_match.
Qed.

Lemma save_saved (ml : mailList) (w w' : World) :
  save ml w = (None, w') →
  ∃ data, MarshalIndent ml = inr data ∧ files w' !! path ml = Some data.
Proof.
  unfold save. destruct (save_write ml w) as [[err|] w1] eqn:Hw; [done|].
  destruct (save_write_tmp ml w w1 Hw) as (data & Hdata & Htmp).
  pose proof (save_rename_target ml w1 data Htmp) as Hr.
  intros Hs. rewrite Hs in Hr. by exists data.
Qed.

(** [newMailList] writes no file, whatever fails, and the index it returns
    is always that of [data.json] in the directory given, whatever the file
    holds.  With every system call succeeding, an account without that file
    starts with the empty list, and for an account with the file the
    members of the document replace the account given to the call. *)
Theorem newMailList_loads_or_starts_empty (email vendor server mailDir : string)
    (w : World) :
  let r := newMailList email vendor server mailDir w in
  let p := Join mailDir "data.json" in
  files r.2 = files w
  ∧ (∀ ml, r.1 = inr ml → path ml = p)
  ∧ (faults w = [] →
     match files w !! p with
     | None => r.1 = inr (mkMailList email [] vendor server p)
     | Some data =>
       match Unmarshal data with
       | inl err => r.1 = inl (Errorf "failed to parse metadata" err)
       | inr doc =>
         r.1 = inr (mkMailList (default email (doc_email doc))
                               (default [] (doc_list doc))
                               (default vendor (doc_vendor doc))
                               (default server (doc_server doc)) p)
       end
     end).
Proof.
  intros r p. unfold r, newMailList. simpl. fold p.
  split; [|split].
  - pose proof (MkdirAll_frame (Dir p) w) as Hm.
    destruct (os.MkdirAll (Dir p) w) as [[err|] w1]; simpl in Hm; [done|].
    destruct (ReadFile_frame p w1) as [Hr _].
    destruct (os_ReadFile p w1) as [[err|data] w2]; simpl in Hr.
    + destruct (os_IsNotExist err); simpl; congruence.
    + destruct (Unmarshal data); simpl; congruence.
  - intros ml.
    destruct (os.MkdirAll (Dir p) w) as [[err|] w1]; [done|].
    destruct (os_ReadFile p w1) as [[err|data] w2].
    + destruct (os_IsNotExist err); simpl; [|done]. by intros [= <-].
    + destruct (Unmarshal data); simpl; [done|]. by intros [= <-].
  - intros Hf. unfold os.MkdirAll, os_ReadFile, next_fault. rewrite Hf. simpl.
    rewrite Hf. simpl.
    destruct (files w !! p) as [data|]; [|done].
    by destruct (Unmarshal data).
Qed.

(** What [save] has written, [newMailList] loads again: after a [save]
    that returned no error, whatever failed before it, a later run on the
    same directory gets the saved index back, with the account of the file
    and not that of the call, when the JSON parser reads the document the
    encoder wrote. *)
Theorem saved_index_is_loaded_again (ml : mailList) (mailDir : string)
    (w w' : World) :
  path ml = Join mailDir "data.json" →
  save ml w = (None, w') →
  (∀ data, MarshalIndent ml = inr data → Unmarshal data = inr (document_of ml)) →
  faults w' = [] →
  ∀ email vendor server,
    (newMailList email vendor server mailDir w').1 = inr ml.
Proof.
  intros Hpath Hsave Hjson Hf email vendor server.
  destruct (save_saved ml w w' Hsave) as (data & Hdata & Hfile).
  unfold newMailList, os.MkdirAll, os_ReadFile, next_fault. simpl.
  rewrite Hf. simpl. rewrite Hf. simpl.
  rewrite <- Hpath, Hfile, (Hjson data Hdata). simpl.
  destruct ml; simpl in *. by rewrite Hpath.
Qed.

End MoreLoading.

(** ** The program on sample inputs *)

Module Run.

Import Sample.
#[local] Existing Instance collaborators.

(** *** The helpers *)

Example sanitizeSubject_examples :
  sanitizeSubject "A/B:C" = "A_B_C" ∧ sanitizeSubject "  hi  " = "hi".
Proof. split; vm_compute; reflexivity. Qed.

Example mimeType_example :
  mimeType "text/html; charset=utf-8" = "text/html".
Proof. vm_compute; reflexivity. Qed.

Example getDirectoryName_example :
  getDirectoryName
    (mkMail 1 "" "" [mkAddress "" "a" "example.com"] (mkTime 2023 7 15)
       [] [] "" [] [] None)
    "attachment" "user@x"
  = Some "attachment/user@x/202307/example.com".
Proof. vm_compute; reflexivity. Qed.

Example fixUtf_example :
  fixUtf ("a" +:+ String (ascii_of_nat 255) "b") = "ab".
Proof. vm_compute; reflexivity. Qed.

(** A plain text message of 2024-01-02 from [a@b.com], subject "Invoice":
    the text handler writes the body, the other two handlers nothing. *)
Example plain_text_message_end_to_end :
  ∃ w, processMails (handlers "user@x") config0 [plain_mail 1 "Invoice"] world0
       = Returned tt w
    ∧ files w = {[ "mail/user@x/202401/b.com/Invoice-2024-01-02-1.txt" := "hello" ]}.
Proof. eexists. split; vm_compute; reflexivity. Qed.

(** *** The parser *)

Lemma inline_unexpected_EOF_skipped_other_read_errors_returned_witness :
  GetBody broken_message = Some (CreateOk broken_reader)
  ∧ parts broken_reader
    = (NextOk <$> [mkPart InlineHeader (ReadOk "a")]) ++ [broken; inline "b"]
  ∧ ∃ m, fetchMessage broken_message = Some (m, Some broken_reader)
         ∧ Error m = Some (errorString "connection reset").
Proof.
  split; [reflexivity|]. split; [reflexivity|].
  destruct (inline_unexpected_EOF_skipped_other_read_errors_returned
              7 [inline "b"] (mkLocals ["a"] [] counter.CreateCounter))
    as (_ & _ & _ & H).
  destruct (H broken_message broken_reader [mkPart InlineHeader (ReadOk "a")]
              [broken; inline "b"] eq_refl eq_refl eq_refl eq_refl)
    as (m & Hm & He).
  exists m. split; [exact Hm | exact He].
Defined.

Lemma parsed_mail_lists_witness :
  GetBody mixed_message = Some (CreateOk mixed_reader)
  ∧ fetchMessage mixed_message = Some (mixed_mail, Some mixed_reader)
  ∧ Error mixed_mail = None
  ∧ (length (Body mixed_mail) + countParts isTruncated mixed_reader
     = countParts isInline mixed_reader)%nat
  ∧ length (Attachments mixed_mail) = countParts isAttachment mixed_reader
  ∧ MultipartMimeType mixed_mail
    = (MIME_String ∘ Detect <$>
         filter (λ body, 0 < len body)%nat (Body mixed_mail))
  ∧ AttachmentMimeType mixed_mail
    = (MIME_String ∘ Detect <$>
         filter (λ body, 0 < len body)%nat (att_Body <$> Attachments mixed_mail))
  ∧ (length (MultipartMimeType mixed_mail) ≤ countParts isInline mixed_reader)%nat
  ∧ (length (AttachmentMimeType mixed_mail) ≤ countParts isAttachment mixed_reader)%nat.
Proof.
  split; [reflexivity|]. split; [vm_compute; reflexivity|]. split; [reflexivity|].
  apply (parsed_mail_lists mixed_message mixed_reader mixed_mail
           (Some mixed_reader)).
  - reflexivity.
  - vm_compute; reflexivity.
  - reflexivity.
Defined.

(** One inline part out of two is lost to an unexpected end of stream, and
    the mail carries no error. *)
Lemma parsed_mail_lists_counterexample :
  let reader := reader "multipart/mixed" [inline "hello"; truncated] in
  let message := mkMessage 7 (envelope "Invoice" [sender]) None (Some (CreateOk reader)) in
  ∃ m, fetchMessage message = Some (m, Some reader)
       ∧ Error m = None
       ∧ countParts isInline reader = 2%nat
       ∧ length (Body m) = 1%nat
       ∧ length (Body m) ≠ countParts isInline reader.
Proof.
  eexists. split; [vm_compute; reflexivity|].
  split; [reflexivity|]. split; [reflexivity|]. split; [reflexivity|].
  vm_compute. discriminate.
Qed.

Lemma attachment_filenames_witness :
  GetBody mixed_message = Some (CreateOk mixed_reader)
  ∧ fetchMessage mixed_message = Some (mixed_mail, Some mixed_reader)
  ∧ Error mixed_mail = None
  ∧ declared (parts mixed_reader) !! 2%nat = Some ("", "PKyy")
  ∧ ∃ a, Attachments mixed_mail !! 2%nat = Some a
         ∧ att_Body a = "PKyy"
         ∧ Mimetype a = "application/zip"
         ∧ Contains "/" (Filename a) = false
         ∧ Filename a = "7-2.zip".
Proof.
  assert (fetchMessage mixed_message = Some (mixed_mail, Some mixed_reader)) as Hf
    by (vm_compute; reflexivity).
  split; [reflexivity|]. split; [exact Hf|]. split; [reflexivity|].
  split; [reflexivity|].
  destruct (attachment_filenames mixed_message mixed_reader mixed_mail
              (Some mixed_reader) eq_refl Hf eq_refl) as [_ H].
  destruct (H 2%nat "" "PKyy" eq_refl) as (a & Ha & Hb & Hm & Hc & Hn).
  destruct (Hn eq_refl) as (_ & Hplain & _).
  exists a. split; [exact Ha|]. split; [exact Hb|]. split; [exact Hm|].
  split; [exact Hc|]. rewrite (Hplain eq_refl). vm_compute. reflexivity.
Defined.

(** *** The fetch pipeline *)

Lemma producer_one_mail_per_message_witness :
  let messages := [unparsable 1; plain_message 2 "Invoice"; broken_message] in
  Forall (λ message, fetchable message = true) messages
  ∧ producer messages = ((Send <$> parsed messages) ++ [CloseChan], None)
  ∧ length (parsed messages) = 3%nat
  ∧ Uid <$> parsed messages = [1; 2; 7]%N.
Proof.
  intros messages.
  assert (Forall (λ message, fetchable message = true) messages) as Hall.
  { constructor; [reflexivity|].
    constructor; [reflexivity|].
    constructor; [reflexivity|]. constructor. }
  split; [exact Hall|].
  exact (producer_one_mail_per_message messages Hall).
Defined.

(** Of three messages delivered, the second without the body section asked
    for: one mail is sent, and [mailsChan] is never closed. *)
Lemma producer_one_mail_per_message_counterexample :
  let messages := [plain_message 1 "Invoice"; bodiless 2; plain_message 3 "Receipt"] in
  producer messages = ([Send (plain_mail 1 "Invoice")], Some (errorString "no reader"))
  ∧ ¬ ∃ sent, (producer messages).1 = (Send <$> sent) ++ [CloseChan]
              ∧ length sent = length messages.
Proof.
  intros messages.
  assert (producer messages
          = ([Send (plain_mail 1 "Invoice")], Some (errorString "no reader"))) as H
    by (vm_compute; reflexivity).
  split; [exact H|].
  rewrite H. intros (sent & Hs & Hl).
  destruct sent as [|m1 [|m2 sent]]; simpl in Hs, Hl; discriminate.
Qed.

Lemma unreadable_message_handling_witness :
  (let pre := [plain_message 1 "Invoice"] in
   Forall (λ message, fetchable message = true) pre
   ∧ GetBody (bodiless 2) = None
   ∧ pre ≠ []
   ∧ producer (pre ++ bodiless 2 :: [plain_message 3 "Receipt"])
     = (Send <$> parsed pre, Some (errorString "no reader")))
  ∧ (fetchable (unparsable 2) = true
     ∧ ∃ m r, fetchMessage (unparsable 2) = Some (m, r)
         ∧ Error m = Some (errorString "malformed MIME header")
         ∧ fetchMessages [unparsable 2; plain_message 3 "Receipt"]
           = ([m; plain_mail 3 "Receipt"], Returns None))
  ∧ (fetchable broken_message = true
     ∧ GetBody broken_message = Some (CreateOk broken_reader)
     ∧ fetchParts (msg_Uid broken_message) (parts broken_reader)
         (mkLocals [] [] counter.CreateCounter)
       = inr (errorString "connection reset")
     ∧ ∃ m r, fetchMessage broken_message = Some (m, r)
         ∧ Error m = Some (errorString "connection reset")
         ∧ fetchMessages [broken_message; plain_message 3 "Receipt"]
           = ([m; plain_mail 3 "Receipt"], Returns None))
  ∧ (Error failed_mail ≠ None
     ∧ receive fresh failed_mail
       = mkReceived [failed_mail] index0 world0)
  ∧ (Error failed_mail ≠ None
     ∧ processMail (handlers "user@x") config0 failed_mail world0
       = Returned tt (log_Println (getErrorText failed_mail) world0)).
Proof.
  destruct (unreadable_message_handling (collab := collaborators))
    as (H1 & H2 & H3 & H4).
  assert (Forall (λ message, fetchable message = true) [plain_message 1 "Invoice"])
    as Hpre by (constructor; [reflexivity|constructor]).
  split; [|split; [|split; [|split]]].
  - split; [exact Hpre|]. split; [reflexivity|]. split; [discriminate|].
    exact (proj2 (H1 _ (bodiless 2) [plain_message 3 "Receipt"] Hpre eq_refl)
             ltac:(discriminate)).
  - split; [reflexivity|].
    destruct (H2 [] (unparsable 2) [plain_message 3 "Receipt"]
                ltac:(constructor) eq_refl) as (m & r & Hm & He & _ & _ & Hf).
    exists m, r. split; [exact Hm|].
    split; [exact (He _ None eq_refl)|]. exact Hf.
  - split; [reflexivity|]. split; [reflexivity|]. split; [reflexivity|].
    destruct (H2 [] broken_message [plain_message 3 "Receipt"]
                ltac:(constructor) eq_refl) as (m & r & Hm & _ & He & _ & Hf).
    exists m, r. split; [exact Hm|].
    split; [exact (He broken_reader _ eq_refl eq_refl)|]. exact Hf.
  - split; [discriminate|]. exact (H3 fresh failed_mail ltac:(discriminate)).
  - split; [discriminate|].
    exact (H4 (handlers "user@x") config0 failed_mail world0 ltac:(discriminate)).
Defined.

(** A message without the body section asked for gets no mail, with or
    without [Error], and neither does the message after it: the one mail
    sent is that of the message before it. *)
Lemma unreadable_message_handling_counterexample :
  let messages := [plain_message 1 "Invoice"; bodiless 2; plain_message 3 "Invoice"] in
  (producer messages).2 = Some (errorString "no reader")
  ∧ (∃ m, Send m ∈ (producer messages).1 ∧ Uid m = 1%N)
  ∧ (¬ ∃ m, Send m ∈ (producer messages).1 ∧ Uid m = 2%N)
  ∧ (¬ ∃ m, Send m ∈ (producer messages).1 ∧ Uid m = 3%N)
  ∧ CloseChan ∉ (producer messages).1.
Proof.
  intros messages.
  assert (producer messages
          = ([Send (plain_mail 1 "Invoice")], Some (errorString "no reader"))) as H
    by (vm_compute; reflexivity).
  rewrite H. simpl.
  split; [reflexivity|]. split; [|split; [|split]].
  - exists (plain_mail 1 "Invoice"). split; [apply list_elem_of_here|reflexivity].
  - intros (m & Hm & Hu). apply list_elem_of_singleton in Hm.
    injection Hm as ->. vm_compute in Hu. discriminate.
  - intros (m & Hm & Hu). apply list_elem_of_singleton in Hm.
    injection Hm as ->. vm_compute in Hu. discriminate.
  - intros Hc. apply list_elem_of_singleton in Hc. discriminate.
Qed.

(** *** The metadata index *)


(** With every system call succeeding, [save] leaves the document in the
    target and no temporary file. *)
Lemma save_keeps_target_whole_witness :
  ∃ data, faults world0 = []
    ∧ MarshalIndent stored = inr data
    ∧ (save stored world0).1 = None
    ∧ files (save stored world0).2 = {[ path stored := data ]}.
Proof.
  destruct (MarshalIndent stored) as [err|data] eqn:Hd;
    [vm_compute in Hd; discriminate Hd|].
  exists data. split; [reflexivity|]. split; [reflexivity|].
  destruct (save_keeps_target_whole stored world0) as (_ & _ & _ & H).
  destruct (H data eq_refl Hd) as (Hnone & _ & _ & Hfiles).
  split; [exact Hnone|]. rewrite Hfiles. simpl.
  rewrite delete_insert_eq, delete_empty. reflexivity.
Defined.

(** [save] after a write that succeeds and a rename that fails: the
    document saved before is still there, whole. *)
Lemma save_failed_rename :
  let before :=
    mkWorld {[ "mail/user@x/data.json" := "old document" ]} ∅
      [Succeeds; Fails (errorString "rename: permission denied") None] [] in
  ∃ err after,
    save stored before = (Some err, after)
    ∧ files after !! "mail/user@x/data.json" = Some "old document".
Proof. do 2 eexists. split; vm_compute; reflexivity. Qed.

(** *** The handlers *)

Lemma text_handler_by_declared_type_witness :
  (Body bodyless_mail = []
   ∧ TextHandler_Handle "user@x" config0 bodyless_mail world0
     = Returned None world0)
  ∧ (let dir := "mail/user@x/202401/b.com" in
     Body alternative_mail = "hello" :: ["<html>1"; "bye"]
     ∧ getDirectoryName alternative_mail "mail" "user@x" = Some dir
     ∧ faults world0 = []
     ∧ ∃ w', TextHandler_Handle "user@x" config0 alternative_mail world0
             = Returned None w'
         ∧ dirs w' = {[dir]} ∪ dirs world0
         ∧ files w'
           = partsWritten
               "mail/user@x/202401/b.com/Invoice-2024-01-02-7.txt"
               "mail/user@x/202401/b.com/Invoice-2024-01-02-7.html"
               (Body alternative_mail) (files world0)).
Proof.
  split.
  - split; [reflexivity|].
    exact (proj1 (text_handler_by_declared_type "user@x" config0
                    bodyless_mail world0) eq_refl).
  - intros dir. split; [reflexivity|]. split; [vm_compute; reflexivity|].
    split; [reflexivity|].
    destruct (proj2 (text_handler_by_declared_type "user@x" config0
                       alternative_mail world0)
                dir "hello" ["<html>1"; "bye"] eq_refl eq_refl eq_refl)
      as (w' & Hh & Hd & Hf).
    exists w'. split; [exact Hh|]. split; [exact Hd|]. exact Hf.
Defined.

(** A multipart mail of a declared type other than the two the handler
    knows: its first body is sniffed as [text/plain], yet no file is
    written; and the directory is made all the same. *)
Lemma text_handler_by_declared_type_counterexample :
  mimeType (MimeType related_mail) = "multipart/related"
  ∧ sniffed "hello" = "text/plain"
  ∧ ∃ w', TextHandler_Handle "user@x" config0 related_mail world0
          = Returned None w'
      ∧ files w' = ∅
      ∧ dirs w' = {[ "mail/user@x/202401/b.com" ]}.
Proof.
  split; [vm_compute; reflexivity|]. split; [vm_compute; reflexivity|].
  eexists. split; [vm_compute; reflexivity|]. split; vm_compute; reflexivity.
Qed.

Lemma text_handler_keeps_last_part_witness :
  let dir := "mail/user@x/202401/b.com" in
  getDirectoryName alternative_mail "mail" "user@x" = Some dir
  ∧ faults world0 = []
  ∧ mimeType (MimeType alternative_mail) = "multipart/alternative"
  ∧ ∃ w', TextHandler_Handle "user@x" config0 alternative_mail world0
          = Returned None w'
      ∧ files w' !! "mail/user@x/202401/b.com/Invoice-2024-01-02-7.txt" = Some "bye"
      ∧ files w' !! "mail/user@x/202401/b.com/Invoice-2024-01-02-7.html"
        = Some "<html>1".
Proof.
  intros dir. split; [vm_compute; reflexivity|].
  split; [reflexivity|]. split; [vm_compute; reflexivity|].
  destruct (text_handler_keeps_last_part "user@x" config0
              alternative_mail world0 dir)
    as (w' & Hh & Htxt & Hhtml).
  - vm_compute; reflexivity.
  - reflexivity.
  - left. vm_compute; reflexivity.
  - exists w'. split; [exact Hh|]. split; [exact Htxt | exact Hhtml].
Defined.

(** C7.  The mail of a message that parses, from an envelope without a
    sender: its [Error] is unset and its [From] is empty, so
    [getDirectoryName] panics on [mail.From[0]]; the attachment handler,
    first of the handlers, calls it at once, and the loop that processes
    the messages panics with it. *)
Theorem getDirectoryName_panics_without_sender :
  fetchMessage senderless_message
    = Some (senderless_mail, Some (reader "text/plain"
                                     [inline "hello"; attached "bill.pdf" "%PDF-1.4"]))
  ∧ Error senderless_mail = None
  ∧ From senderless_mail = []
  ∧ getDirectoryName senderless_mail "attachment" "user@x" = None
  ∧ Handle (AttachmentHandler "user@x") config0 senderless_mail world0
    = Panicked world0
  ∧ Handle (TextHandler "user@x") config0 senderless_mail world0
    = Panicked world0
  ∧ processMails (handlers "user@x") config0 [senderless_mail] world0
    = Panicked world0.
Proof. repeat split; vm_compute; reflexivity. Qed.

End Run.

(** ** The further properties on sample inputs *)

Module Further.

Import Sample.
#[local] Existing Instance collaborators.
#[local] Existing Instance loader.

(** *** Strings *)

Lemma fixUtf_keeps_ASCII_drops_invalid_witness :
  isASCII "Rechnung.pdf" = true
  ∧ fixUtf "Rechnung.pdf" = "Rechnung.pdf"
  ∧ strayByte (ascii_of_nat 255) = true
  ∧ fixUtf (String (ascii_of_nat 255) "b") = fixUtf "b".
Proof.
  destruct fixUtf_keeps_ASCII_drops_invalid as (H1 & _ & H3 & _).
  split; [reflexivity|]. split; [apply H1; reflexivity|].
  split; [reflexivity|]. apply H3. reflexivity.
Defined.

Lemma sanitizeSubject_safe_witness :
  "/"%char ∈ unsafeChars ∧ Contains "/" (sanitizeSubject " A/B:C ") = false.
Proof.
  assert ("/"%char ∈ unsafeChars) as H by apply list_elem_of_here.
  split; [exact H|]. exact (sanitizeSubject_safe " A/B:C " "/" H).
Defined.

Lemma baseFilename_safe_witness :
  ":"%char ∈ unsafeChars
  ∧ Contains ":" (baseFilename (plain_mail 1 "Re: Invoice")) = false.
Proof.
  assert (":"%char ∈ unsafeChars) as H
    by apply list_elem_of_further, list_elem_of_further, list_elem_of_here.
  split; [exact H|]. exact (baseFilename_safe (plain_mail 1 "Re: Invoice") ":" H).
Defined.

(** *** The parser *)

Lemma parsed_mail_contents_witness :
  GetBody mixed_message = Some (CreateOk mixed_reader)
  ∧ fetchMessage mixed_message = Some (mixed_mail, Some mixed_reader)
  ∧ Error mixed_mail = None
  ∧ Body mixed_mail = inlineBodies (parts mixed_reader)
  ∧ att_Body <$> Attachments mixed_mail = snd <$> declared (parts mixed_reader).
Proof.
  assert (fetchMessage mixed_message = Some (mixed_mail, Some mixed_reader)) as Hf
    by (vm_compute; reflexivity).
  split; [reflexivity|]. split; [exact Hf|]. split; [reflexivity|].
  exact (parsed_mail_contents mixed_message mixed_reader mixed_mail
           (Some mixed_reader) eq_refl Hf eq_refl).
Defined.

Lemma failed_mail_has_no_content_witness :
  ∃ m, fetchMessage broken_message = Some (m, Some broken_reader)
    ∧ Error m ≠ None
    ∧ Body m = [] ∧ Attachments m = []
    ∧ MultipartMimeType m = [] ∧ AttachmentMimeType m = [].
Proof.
  destruct (fetchMessage broken_message) as [[m r]|] eqn:Hf;
    [|vm_compute in Hf; discriminate Hf].
  assert (r = Some broken_reader ∧ Error m ≠ None) as [-> He].
  { vm_compute in Hf. injection Hf as <- <-. split; [reflexivity|discriminate]. }
  exists m. split; [reflexivity|]. split; [exact He|].
  exact (failed_mail_has_no_content broken_message m (Some broken_reader) Hf He).
Defined.

Lemma fetched_mail_metadata_witness :
  fetchMessage mixed_message = Some (mixed_mail, Some mixed_reader)
  ∧ Uid mixed_mail = 7%N
  ∧ Subject mixed_mail = "Invoice"
  ∧ From mixed_mail = [sender].
Proof.
  assert (fetchMessage mixed_message = Some (mixed_mail, Some mixed_reader)) as Hf
    by (vm_compute; reflexivity).
  destruct (fetched_mail_metadata mixed_message mixed_mail (Some mixed_reader) Hf)
    as (HU & _ & HS & HF & _).
  split; [exact Hf|]. split; [exact HU|]. split; [exact HS|exact HF].
Defined.

Lemma declared_type_of_mail_witness :
  fetchMessage mixed_message = Some (mixed_mail, Some mixed_reader)
  ∧ GetBody mixed_message = Some (CreateOk mixed_reader)
  ∧ MimeType mixed_mail = "multipart/mixed".
Proof.
  assert (fetchMessage mixed_message = Some (mixed_mail, Some mixed_reader)) as Hf
    by (vm_compute; reflexivity).
  destruct (declared_type_of_mail mixed_message mixed_mail (Some mixed_reader) Hf)
    as [H _].
  split; [exact Hf|]. split; [reflexivity|]. exact (H mixed_reader eq_refl).
Defined.

Lemma NextPart_errors_witness :
  let pre := [mkPart InlineHeader (ReadOk "a")] in
  let err := errorString "multipart: NextPart: EOF" in
  let st := mkLocals ["a"] [] counter.CreateCounter in
  GetBody ended_message = Some (CreateOk ended_reader)
  ∧ fetchParts (msg_Uid ended_message) (NextOk <$> pre)
      (mkLocals [] [] counter.CreateCounter) = inl st
  ∧ parts ended_reader = (NextOk <$> pre) ++ NextErr err :: [inline "b"]
  ∧ endOfParts err
  ∧ ∃ m, fetchMessage ended_message = Some (m, Some ended_reader)
      ∧ Error m = None ∧ Body m = ["a"] ∧ Attachments m = [].
Proof.
  intros pre err st.
  assert (endOfParts err) as He by (right; reflexivity).
  split; [reflexivity|]. split; [reflexivity|]. split; [reflexivity|].
  split; [exact He|].
  destruct (NextPart_errors ended_message ended_reader pre [inline "b"] st err
              eq_refl eq_refl) as [H _].
  destruct (H eq_refl) as (m & Hm & Hend & _).
  exists m. split; [exact Hm|]. exact (Hend He).
Defined.

Lemma failing_Close_ends_the_run_witness :
  let pre := [plain_message 1 "Invoice"] in
  let rest := [plain_message 3 "Receipt"] in
  let err := errorString "close failed" in
  Forall (λ message, fetchable message = true) pre
  ∧ ∃ m, fetchMessage unclosed_message = Some (m, Some unclosed_reader)
      ∧ Close unclosed_reader = Some err
      ∧ fetchMessages (pre ++ unclosed_message :: rest) = (parsed pre ++ [m], Exits err)
      ∧ producer (pre ++ unclosed_message :: rest)
        = (Send <$> (parsed pre ++ [m]), Some err).
Proof.
  intros pre rest err.
  assert (Forall (λ message, fetchable message = true) pre) as Hpre.
  { constructor; [reflexivity|constructor]. }
  split; [exact Hpre|].
  destruct (fetchMessage unclosed_message) as [[m r]|] eqn:Hf;
    [|vm_compute in Hf; discriminate Hf].
  assert (r = Some unclosed_reader) as ->.
  { vm_compute in Hf. injection Hf as _ <-. reflexivity. }
  exists m. split; [reflexivity|]. split; [reflexivity|].
  exact (failing_Close_ends_the_run pre rest unclosed_message m unclosed_reader err
           Hpre Hf eq_refl).
Defined.

Lemma declared_filename_kept_witness :
  GetBody mixed_message = Some (CreateOk mixed_reader)
  ∧ fetchMessage mixed_message = Some (mixed_mail, Some mixed_reader)
  ∧ Error mixed_mail = None
  ∧ declared (parts mixed_reader) !! 1%nat = Some ("a/b.zip", "PKxx")
  ∧ "a/b.zip" ≠ ""
  ∧ isASCII "a/b.zip" = true
  ∧ ∃ a, Attachments mixed_mail !! 1%nat = Some a ∧ Filename a = "a-b.zip".
Proof.
  assert (fetchMessage mixed_message = Some (mixed_mail, Some mixed_reader)) as Hf
    by (vm_compute; reflexivity).
  assert ("a/b.zip" ≠ "") as Hne by discriminate.
  split; [reflexivity|]. split; [exact Hf|]. split; [reflexivity|].
  split; [reflexivity|]. split; [exact Hne|]. split; [reflexivity|].
  destruct (declared_filename_kept mixed_message mixed_reader mixed_mail
              (Some mixed_reader) 1 "a/b.zip" "PKxx" eq_refl Hf eq_refl eq_refl Hne)
    as (a & Ha & _ & Hascii & _).
  exists a. split; [exact Ha|]. exact (Hascii eq_refl).
Defined.

(** *** The index *)

Lemma addMail_keeps_the_index_witness :
  let ml' := (addMail stored (plain_mail 2 "changed") world0).1.2 in
  List stored !! 0%nat = Some (indexed (plain_mail 1 "first"))
  ∧ jm_Uid (indexed (plain_mail 1 "first")) ≠ Uid (plain_mail 2 "changed")
  ∧ NoDup (jm_Uid <$> List stored)
  ∧ List ml' !! 0%nat = Some (indexed (plain_mail 1 "first"))
  ∧ NoDup (jm_Uid <$> List ml')
  ∧ (∃ data jm, toJson (plain_mail 2 "changed") = inr data
       ∧ Unmarshal_jsonMail data = inr jm
       ∧ jm_Uid jm = 2%N
       ∧ jm ∈ List ml')
  ∧ (∃ err, toJson late_mail = inl err
       ∧ addMail stored late_mail world0
         = (Some (Errorf "failed to convert mail to json" err), stored, world0)).
Proof.
  intros ml'.
  assert (jm_Uid (indexed (plain_mail 1 "first")) ≠ Uid (plain_mail 2 "changed"))
    as Hne by (vm_compute; discriminate).
  assert (NoDup (jm_Uid <$> List stored)) as Hnd.
  { apply (bool_decide_unpack _). vm_compute. exact I. }
  split; [reflexivity|]. split; [exact Hne|]. split; [exact Hnd|].
  destruct (addMail_keeps_the_index stored (plain_mail 2 "changed") world0)
    as (_ & Hin & _ & Hother & Hdup).
  split; [exact (Hother 0%nat _ eq_refl Hne)|]. split; [exact (Hdup Hnd)|].
  split.
  - destruct (toJson (plain_mail 2 "changed")) as [err|data] eqn:Hd;
      [vm_compute in Hd; discriminate Hd|].
    destruct (Hin data eq_refl) as (jm & Hu & HU & Hjm).
    exists data, jm. split; [reflexivity|]. split; [exact Hu|].
    split; [exact HU|exact Hjm].
  - destruct (toJson late_mail) as [err|data] eqn:Hd;
      [|vm_compute in Hd; discriminate Hd].
    exists err. split; [reflexivity|].
    destruct (addMail_keeps_the_index stored late_mail world0)
      as (_ & _ & Hfail & _).
    exact (Hfail err Hd).
Defined.

Lemma consumer_keeps_every_mail_witness :
  let sent := [failed_mail; late_mail] in
  Forall (λ m, Error m ≠ None ∨ ∃ err, toJson m = inl err) sent
  ∧ mails (consumer sent fresh) = sent
  ∧ index (consumer sent fresh) = index0.
Proof.
  intros sent.
  assert (Forall (λ m, Error m ≠ None ∨ ∃ err, toJson m = inl err) sent) as Hall.
  { constructor; [left; discriminate|].
    constructor; [|constructor]. right.
    destruct (toJson late_mail) as [err|data] eqn:Hd;
      [|vm_compute in Hd; discriminate Hd].
    exists err. reflexivity. }
  destruct (consumer_keeps_every_mail sent fresh) as (Hm & _ & Hi).
  split; [exact Hall|]. split; [exact Hm|exact (Hi Hall)].
Defined.

Lemma save_touches_its_two_files_witness :
  let w := mkWorld {[ "notes.txt" := "mine" ]} ∅ [] [] in
  "notes.txt" ≠ path stored
  ∧ "notes.txt" ≠ path stored +:+ ".tmp"
  ∧ (save stored w).1 = None
  ∧ files (save stored w).2 !! "notes.txt" = files w !! "notes.txt"
  ∧ files (save stored w).2 !! (path stored +:+ ".tmp") = None.
Proof.
  intros w.
  assert ("notes.txt" ≠ path stored) as H1 by discriminate.
  assert ("notes.txt" ≠ path stored +:+ ".tmp") as H2 by discriminate.
  assert ((save stored w).1 = None) as H3 by (vm_compute; reflexivity).
  destruct (save_touches_its_two_files stored w) as (Hframe & _ & Htmp).
  split; [exact H1|]. split; [exact H2|]. split; [exact H3|].
  split; [exact (Hframe "notes.txt" H1 H2)|exact (Htmp H3)].
Defined.

(** *** The handlers *)

Lemma attachment_handler_saves_accepted_witness :
  let dir := "attachment/user@x/202401/b.com" in
  let first := mkAttachment "bill.pdf" "%PDF-1" "application/pdf" in
  let second := mkAttachment "bill.pdf" "%PDF-2" "application/pdf" in
  getDirectoryName twice_mail "attachment" "user@x" = Some dir
  ∧ faults world0 = []
  ∧ matching config0 (Attachments twice_mail) = [first] ++ second :: []
  ∧ ∃ w', AttachmentHandler_Handle "user@x" config0 twice_mail world0 = Returned None w'
      ∧ files w' !! (dir +:+ "/" +:+ "bill.pdf") = Some "%PDF-2".
Proof.
  intros dir first second.
  assert (matching config0 (Attachments twice_mail) = [first] ++ second :: []) as Hm
    by (vm_compute; reflexivity).
  split; [reflexivity|]. split; [reflexivity|]. split; [exact Hm|].
  destruct (attachment_handler_saves_accepted "user@x" config0 twice_mail world0 dir
              eq_refl) as [_ H].
  destruct (H eq_refl) as (w' & Hw & _ & Hlast).
  exists w'. split; [exact Hw|].
  exact (Hlast [first] second [] Hm (Forall_nil_2 _)).
Defined.

Lemma pdf_handler_renders_html_bodies_witness :
  let dir := "mail/user@x/202401/b.com" in
  Find (Mails_Subjects config0) (Subject page_mail) = true
  ∧ NewPDFGenerator = None
  ∧ htmlBodies page_mail = ["<html>1"; "<html>2"]
  ∧ getDirectoryName page_mail "mail" "user@x" = Some dir
  ∧ faults world0 = []
  ∧ ∃ w', PDFHandler_Handle "user@x" config0 page_mail world0 = Returned None w'
      ∧ dirs w' = {[dir]} ∪ dirs world0
      ∧ files w'
        = <[dir +:+ "/" +:+ baseFilename page_mail +:+ ".pdf" := "%PDF<html>1<html>2"]>
            (files world0).
Proof.
  intros dir.
  assert (Find (Mails_Subjects config0) (Subject page_mail) = true) as H1
    by (vm_compute; reflexivity).
  assert (htmlBodies page_mail = ["<html>1"; "<html>2"]) as H2
    by (vm_compute; reflexivity).
  assert (htmlBodies page_mail ≠ []) as H2' by (rewrite H2; discriminate).
  split; [exact H1|]. split; [reflexivity|]. split; [exact H2|].
  split; [reflexivity|]. split; [reflexivity|].
  destruct (pdf_handler_renders_html_bodies "user@x" config0 page_mail world0 H1)
    as [_ H].
  exact (H H2' dir eq_refl eq_refl).
Defined.

Lemma handlers_write_only_their_outputs_witness :
  let w := mkWorld {[ "notes.txt" := "mine" ]} ∅
             [Succeeds; Fails (PathError "disk full") (Some "%P")] [] in
  ("notes.txt" ∉ outputPaths "user@x" config0 twice_mail)
  ∧ files (world_of (processMail (handlers "user@x") config0 twice_mail w))
      !! "notes.txt" = Some "mine".
Proof.
  intros w.
  assert ("notes.txt" ∉ outputPaths "user@x" config0 twice_mail) as H.
  { apply (bool_decide_unpack _). vm_compute. exact I. }
  split; [exact H|].
  exact (handlers_write_only_their_outputs "user@x" config0 twice_mail w "notes.txt"
           (or_introl H)).
Defined.

Lemma processMails_runs_to_the_end_witness :
  let w := mkWorld ∅ ∅ [Fails (PathError "disk full") None] [] in
  Forall (λ m, Error m = None → From m ≠ []) [twice_mail; failed_mail]
  ∧ (∃ w', processMails (handlers "user@x") config0 [twice_mail; failed_mail] w
           = Returned tt w')
  ∧ Forall (λ message, env_From (msg_Envelope message) ≠ [])
      [mixed_message; broken_message]
  ∧ ∃ w', processMails (handlers "user@x") config0
            (parsed [mixed_message; broken_message]) w
          = Returned tt w'.
Proof.
  intros w.
  assert (Forall (λ m, Error m = None → From m ≠ []) [twice_mail; failed_mail]) as H1.
  { constructor; [discriminate|]. constructor; [discriminate|constructor]. }
  assert (Forall (λ message, env_From (msg_Envelope message) ≠ [])
            [mixed_message; broken_message]) as H2.
  { constructor; [discriminate|]. constructor; [discriminate|constructor]. }
  destruct (processMails_runs_to_the_end (handlers "user@x") config0) as [Hm Hp].
  split; [exact H1|]. split; [exact (Hm _ w H1)|].
  split; [exact H2|exact (Hp _ w H2)].
Defined.

(** *** Loading the index *)

Lemma newMailList_loads_or_starts_empty_witness :
  faults world0 = []
  ∧ (newMailList "user@x" "imap" "imap.x" "mail/user@x" world0).1 = inr index0.
Proof.
  split; [reflexivity|].
  destruct (newMailList_loads_or_starts_empty "user@x" "imap" "imap.x" "mail/user@x"
              world0) as (_ & _ & H).
  exact (H eq_refl).
Defined.

Lemma saved_index_is_loaded_again_witness :
  let w := mkWorld ∅ ∅ [Fails (PathError "disk full") None] [] in
  let w1 := (save stored w).2 in
  let w2 := (save stored w1).2 in
  path stored = Join "mail/user@x" "data.json"
  ∧ (save stored w).1 ≠ None
  ∧ save stored w1 = (None, w2)
  ∧ (∀ data, MarshalIndent stored = inr data → Unmarshal data = inr (document_of stored))
  ∧ faults w2 = []
  ∧ (newMailList "someone@y" "pop" "pop.y" "mail/user@x" w2).1 = inr stored.
Proof.
  intros w w1 w2.
  assert (save stored w1 = (None, w2)) as Hs by (vm_compute; reflexivity).
  assert (∀ data, MarshalIndent stored = inr data
                  → Unmarshal data = inr (document_of stored)) as Hj.
  { intros data Hd. simpl in *. unfold unmarshal.
    destruct (decide (inr data = marshal stored)) as [_|Hn]; [reflexivity|].
    destruct Hn. symmetry. exact Hd. }
  split; [reflexivity|]. split; [vm_compute; discriminate|].
  split; [exact Hs|]. split; [exact Hj|]. split; [reflexivity|].
  exact (saved_index_is_loaded_again stored "mail/user@x" w1 w2
           eq_refl Hs Hj eq_refl "someone@y" "pop" "pop.y").
Defined.

End Further.
